(** * The Gibbs sampler worker of [src/gibbs_sampler.h]

    A shallow embedding of [dd::GibbsSamplerThread]: the conditional sampler
    [draw_sample] and the two per-variable steps [sample_single_variable]
    and [sample_sgd_single_variable], written as computations over the
    worker's state that either return or halt the process.

    - A C++ [double] is read as a real number ([R]); [exp] is the real
      exponential.
    - [erand48] is the 48-bit linear congruential generator of POSIX,
      acting on the three 16-bit words of [p_rand_seed].
    - [std::vector<double>] is a pair of an element count and the allocated
      storage, so that [reserve] and [operator[]] can be told apart.
    - The collaborators declared in other headers ([fg.potential],
      [fg.update_weight], [Variable::get_domain_index],
      [Variable::INVALID_VALUE], [fg.variables]) are section variables;
      [logadd] and the sweep loops, whose bodies are in files that are not
      at hand, follow the specification.

    The theorems marked C1 to C10 are the properties checked against the
    specification; those marked C2 and C4 evaluate the code on inputs
    where it departs from it. *)

From Stdlib Require Import ZArith Reals Lra Lia.
From stdpp Require Import base list.

Set Default Proof Using "Type".

(** ** Values, variables and the inference state *)

(** [VariableValue] and [VariableIndex] are typedefs of [common.h]; values
    are never computed with here, indices only address arrays. *)
Abbreviation VariableValue := Z (only parsing).
Abbreviation VariableIndex := nat (only parsing).

(** The enumerators the sampler switches on; [DTYPE_OTHER] stands for every
    enumerator that reaches a [default:] branch. *)
Inductive DomainType : Type :=
| DTYPE_BOOLEAN
| DTYPE_MULTINOMIAL
| DTYPE_OTHER.

(** The fields of the class [Variable] that the sampler reads ([Variable] is
    a reserved word here, hence the underscore).  [domain_map] is the
    optional [unordered_map] from value to compact index, kept as the list
    of its entries in iteration order ([entry.first], [entry.second]). *)
Record Variable_ : Type := mkVariable {
  id : VariableIndex;
  domain_type : DomainType;
  is_evid : bool;
  is_observation : bool;
  cardinality : nat;
  assignment_evid : VariableValue;
  n_start_i_tally : nat;
  domain_map : option (list (VariableValue * nat))
}.

Record CompactFactorGraph : Type := mkFactorGraph {
  variables : list Variable_
}.

(** [InferenceResult]: the arrays shared by reference with the worker.  The
    counters' element types are declared outside this header; they are
    kept as unbounded naturals. *)
Record InferenceResult : Type := mkInferenceResult {
  assignments_evid : list VariableValue;
  assignments_free : list VariableValue;
  weight_values : list R;
  agg_nsamples : list nat;
  agg_means : list R;
  multinomial_tallies : list nat
}.

(** ** [erand48] *)

(** [unsigned short p_rand_seed[3]]: word 0 is the least significant. *)
Record seed48 : Type := mkSeed {
  xsubi0 : Z;
  xsubi1 : Z;
  xsubi2 : Z
}.

Definition u16 (z : Z) : Z := Z.land z 0xFFFF.

Definition seed_to_Z (s : seed48) : Z :=
  Z.lor (Z.shiftl (u16 (xsubi2 s)) 32)
        (Z.lor (Z.shiftl (u16 (xsubi1 s)) 16) (u16 (xsubi0 s))).

Definition seed_of_Z (x : Z) : seed48 :=
  {| xsubi0 := u16 x;
     xsubi1 := u16 (Z.shiftr x 16);
     xsubi2 := u16 (Z.shiftr x 32) |}.

(** X(n+1) = (a * X(n) + c) mod 2^48 with a = 0x5DEECE66D and c = 0xB. *)
Definition lcg_next (x : Z) : Z := (0x5DEECE66D * x + 0xB) mod 2 ^ 48.

Definition next_seed (s : seed48) : seed48 := seed_of_Z (lcg_next (seed_to_Z s)).

(** The double returned is X(n+1) / 2^48, which a double holds exactly. *)
Definition erand48 (s : seed48) : R * seed48 :=
  let x := lcg_next (seed_to_Z s) in
  ((IZR x / IZR (2 ^ 48))%R, seed_of_Z x).

(** ** [std::vector<double>] *)

(** [vec_size] is [size()]; [vec_data] is the allocated storage, so
    [capacity()] is its length.  Cells at or beyond [vec_size] are raw
    storage: [operator[]] does not check against either bound. *)
Record vector : Type := mkVector {
  vec_size : nat;
  vec_data : list R
}.

Definition vec_capacity (v : vector) : nat := length (vec_data v).

(** ** The worker and the computations over it *)

Record GibbsSamplerThread : Type := mkWorker {
  start : VariableIndex;
  end_ : VariableIndex;
  p_rand_seed : seed48;
  varlen_potential_buffer_ : vector;
  infrs : InferenceResult;
  sample_evidence : bool;
  learn_non_evidence : bool
}.

(** How the process can stop: [abort()], a failed [assert], or an access
    outside allocated storage, which C++ leaves undefined. *)
Inductive fatal : Type :=
| AbortCalled
| AssertionFailed
| OutOfStorage.

(** A computation returns a value and the worker's next state, or halts in
    the state reached so far. *)
Inductive outcome (A : Type) : Type :=
| Ok (a : A) (w : GibbsSamplerThread)
| Halt (f : fatal) (w : GibbsSamplerThread).
Arguments Ok {A} a w.
Arguments Halt {A} f w.

Definition Worker (A : Type) : Type := GibbsSamplerThread -> outcome A.

Definition ret {A} (a : A) : Worker A := fun w => Ok a w.

Definition bind {A B} (c : Worker A) (k : A -> Worker B) : Worker B :=
  fun w => match c w with
           | Ok a w' => k a w'
           | Halt f w' => Halt f w'
           end.

Notation "x <- c ;; k" := (bind c (fun x => k))
  (at level 100, c at next level, right associativity).
Notation "c ;;; k" := (bind c (fun _ => k))
  (at level 100, right associativity).

Definition gets {A} (f : GibbsSamplerThread -> A) : Worker A :=
  fun w => Ok (f w) w.

Definition halt {A} (f : fatal) : Worker A := fun w => Halt f w.

(** [abort()] *)
Definition abort {A} : Worker A := halt AbortCalled.

(** [assert(b)], with assertions compiled in. *)
Definition assert (b : bool) : Worker unit :=
  if b then ret tt else halt AssertionFailed.

Definition final_state {A} (o : outcome A) : GibbsSamplerThread :=
  match o with Ok _ w => w | Halt _ w => w end.

(** [c] preserves the component [f] of the worker. *)
Definition preserves {A X} (f : GibbsSamplerThread -> X) (c : Worker A) : Prop :=
  forall w, f (final_state (c w)) = f w.

Definition with_seed (s : seed48) (w : GibbsSamplerThread) : GibbsSamplerThread :=
  {| start := start w; end_ := end_ w; p_rand_seed := s;
     varlen_potential_buffer_ := varlen_potential_buffer_ w;
     infrs := infrs w; sample_evidence := sample_evidence w;
     learn_non_evidence := learn_non_evidence w |}.

Definition with_buffer (b : vector) (w : GibbsSamplerThread) : GibbsSamplerThread :=
  {| start := start w; end_ := end_ w; p_rand_seed := p_rand_seed w;
     varlen_potential_buffer_ := b;
     infrs := infrs w; sample_evidence := sample_evidence w;
     learn_non_evidence := learn_non_evidence w |}.

Definition with_infrs (i : InferenceResult) (w : GibbsSamplerThread) : GibbsSamplerThread :=
  {| start := start w; end_ := end_ w; p_rand_seed := p_rand_seed w;
     varlen_potential_buffer_ := varlen_potential_buffer_ w;
     infrs := i; sample_evidence := sample_evidence w;
     learn_non_evidence := learn_non_evidence w |}.

(** [erand48(p_rand_seed)]: the seed words are updated in place. *)
Definition erand48_p_rand_seed : Worker R :=
  fun w => let (r, s) := erand48 (p_rand_seed w) in Ok r (with_seed s w).

(** [infrs.<array> = ...] through the shared reference. *)
Definition modify_infrs (f : InferenceResult -> InferenceResult) : Worker unit :=
  fun w => Ok tt (with_infrs (f (infrs w)) w).

(** *** The arrays of [InferenceResult]

    The arrays are raw and sized by their owner; an index outside one is
    undefined in C++ and leaves the array as it is here. *)

(* infrs.assignments_evid[i] = v *)
Definition store_assignments_evid (i : nat) (v : VariableValue)
    (r : InferenceResult) : InferenceResult :=
  {| assignments_evid := <[i := v]> (assignments_evid r);
     assignments_free := assignments_free r;
     weight_values := weight_values r;
     agg_nsamples := agg_nsamples r;
     agg_means := agg_means r;
     multinomial_tallies := multinomial_tallies r |}.

(* infrs.assignments_free[i] = v *)
Definition store_assignments_free (i : nat) (v : VariableValue)
    (r : InferenceResult) : InferenceResult :=
  {| assignments_evid := assignments_evid r;
     assignments_free := <[i := v]> (assignments_free r);
     weight_values := weight_values r;
     agg_nsamples := agg_nsamples r;
     agg_means := agg_means r;
     multinomial_tallies := multinomial_tallies r |}.

(* infrs.agg_nsamples[i]++ *)
Definition incr_agg_nsamples (i : nat) (r : InferenceResult) : InferenceResult :=
  {| assignments_evid := assignments_evid r;
     assignments_free := assignments_free r;
     weight_values := weight_values r;
     agg_nsamples := alter S i (agg_nsamples r);
     agg_means := agg_means r;
     multinomial_tallies := multinomial_tallies r |}.

(* infrs.agg_means[i] += v *)
Definition add_agg_means (i : nat) (v : VariableValue)
    (r : InferenceResult) : InferenceResult :=
  {| assignments_evid := assignments_evid r;
     assignments_free := assignments_free r;
     weight_values := weight_values r;
     agg_nsamples := agg_nsamples r;
     agg_means := alter (fun m => (m + IZR v)%R) i (agg_means r);
     multinomial_tallies := multinomial_tallies r |}.

(* ++infrs.multinomial_tallies[i] *)
Definition incr_multinomial_tallies (i : nat) (r : InferenceResult) : InferenceResult :=
  {| assignments_evid := assignments_evid r;
     assignments_free := assignments_free r;
     weight_values := weight_values r;
     agg_nsamples := agg_nsamples r;
     agg_means := agg_means r;
     multinomial_tallies := alter S i (multinomial_tallies r) |}.

(** ** The numeric helpers *)

(** Modelled from the spec: [logadd] is defined in [common.h], which is not
    among the sources; section 4.1 gives it as log(e^sum + e^potential). *)
Definition logadd (a b : R) : R := ln (exp a + exp b).

(** The coin of the boolean case:
    [r * (1.0 + exp(potential_neg - potential_pos)) < 1.0]. *)
Definition boolean_accept (potential_pos potential_neg r : R) : bool :=
  if Rlt_dec (r * (1 + exp (potential_neg - potential_pos))) 1 then true else false.

(** P(1) = exp(p1) / (exp(p1) + exp(p0)), the probability that section 4.1
    assigns to the value 1. *)
Definition p_one (p1 p0 : R) : R := (exp p1 / (exp p1 + exp p0))%R.

(** The characteristic function of the draws that the coin accepts. *)
Definition accept_indicator (potential_pos potential_neg : R) (r : R) : R :=
  if boolean_accept potential_pos potential_neg r then 1%R else 0%R.

(** The iteration of [COMPUTE_PROPOSAL]: the pairs (DOMAIN_VALUE,
    DOMAIN_INDEX) in the order of [EACH_DOMAIN_VALUE].  Sparse: the entries
    of [*variable.domain_map]; dense: [i, i] for [i < cardinality]. *)
Definition domain_entries (variable : Variable_) : list (VariableValue * nat) :=
  match domain_map variable with
  | Some entries => entries
  | None => map (fun i : nat => (Z.of_nat i, i)) (seq 0 (cardinality variable))
  end.

(** The second loop of [COMPUTE_PROPOSAL] runs through [entries] without
    [r <= 0] ever holding: every subtraction leaves [r] positive. *)
Fixpoint never_selected (cells : list R) (entries : list (VariableValue * nat))
    (sum r : R) : Prop :=
  match entries with
  | [] => True
  | (_, index) :: rest =>
      exists p, cells !! index = Some p
                /\ (0 < r - exp (p - sum))%R
                /\ never_selected cells rest sum (r - exp (p - sum))%R
  end.

(** The inference step gets as far as drawing for [variable]: it is no
    observation, and it is no evidence or evidence is resampled. *)
Definition processed (variable : Variable_) (w : GibbsSamplerThread) : bool :=
  negb (is_observation variable)
  && (negb (is_evid variable) || sample_evidence w).

(** Every aggregate of [i2] is at least the one of [i1] in the same slot. *)
Definition agg_le (i1 i2 : InferenceResult) : Prop :=
  Forall2 le (agg_nsamples i1) (agg_nsamples i2)
  /\ Forall2 Rle (agg_means i1) (agg_means i2)
  /\ Forall2 le (multinomial_tallies i1) (multinomial_tallies i2).

(** The two records hold the same aggregates. *)
Definition agg_eq (i1 i2 : InferenceResult) : Prop :=
  agg_nsamples i1 = agg_nsamples i2
  /\ agg_means i1 = agg_means i2
  /\ multinomial_tallies i1 = multinomial_tallies i2.

(** What the inference state holds for the variable with id [k], tallies
    apart. *)
Definition slots_at (k : nat) (i : InferenceResult)
    : option Z * option Z * option nat * option R :=
  (assignments_evid i !! k, assignments_free i !! k,
   agg_nsamples i !! k, agg_means i !! k).

(** Every mean accumulator lies between 0 and the sample counter of the
    same slot, so that the mean estimated from them lies in [[0, 1]]. *)
Definition mean_within (i : InferenceResult) : Prop :=
  Forall2 (fun (m : R) (n : nat) => (0 <= m <= INR n)%R)
          (agg_means i) (agg_nsamples i).

(** The sizes of the arrays of the inference state. *)
Definition array_lengths (i : InferenceResult)
    : nat * nat * nat * nat * nat * nat :=
  (length (assignments_evid i), length (assignments_free i),
   length (weight_values i), length (agg_nsamples i),
   length (agg_means i), length (multinomial_tallies i)).

(** What a draw shows to its caller: the value returned, or how it halted. *)
Definition drawn {A} (o : outcome A) : A + fatal :=
  match o with Ok a _ => inl a | Halt f _ => inr f end.

(** A vector whose element count fits its storage. *)
Definition vec_wf (v : vector) : Prop := vec_size v <= vec_capacity v.

(** Two workers that differ at most in what their scratch buffers hold. *)
Definition similar (w1 w2 : GibbsSamplerThread) : Prop :=
  start w1 = start w2 /\ end_ w1 = end_ w2 /\
  p_rand_seed w1 = p_rand_seed w2 /\ infrs w1 = infrs w2 /\
  sample_evidence w1 = sample_evidence w2 /\
  learn_non_evidence w1 = learn_non_evidence w2 /\
  vec_wf (varlen_potential_buffer_ w1) /\ vec_wf (varlen_potential_buffer_ w2).

(** On two such workers [c1] and [c2] show the same result and leave two
    such workers. *)
Definition related {A} (c1 c2 : Worker A) : Prop :=
  forall w1 w2, similar w1 w2 ->
    drawn (c1 w1) = drawn (c2 w2)
    /\ similar (final_state (c1 w1)) (final_state (c2 w2)).

(** Every compact index of the domain is below the cardinality; a dense
    domain has this by construction. *)
Definition wf_domain (variable : Variable_) : Prop :=
  Forall (fun e : VariableValue * nat => e.2 < cardinality variable)
         (domain_entries variable).

(** ** Small concrete inputs, for the examples that close the file *)

(** A boolean variable, a two-valued dense multinomial one, a boolean
    evidence variable and a boolean observation, all with id 0. *)
Definition coin : Variable_ :=
  {| id := 0; domain_type := DTYPE_BOOLEAN; is_evid := false;
     is_observation := false; cardinality := 2; assignment_evid := 0;
     n_start_i_tally := 0; domain_map := None |}.

Definition die : Variable_ :=
  {| id := 0; domain_type := DTYPE_MULTINOMIAL; is_evid := false;
     is_observation := false; cardinality := 2; assignment_evid := 0;
     n_start_i_tally := 0; domain_map := None |}.

Definition pinned : Variable_ :=
  {| id := 0; domain_type := DTYPE_BOOLEAN; is_evid := true;
     is_observation := false; cardinality := 2; assignment_evid := 1;
     n_start_i_tally := 0; domain_map := None |}.

Definition observed : Variable_ :=
  {| id := 0; domain_type := DTYPE_BOOLEAN; is_evid := true;
     is_observation := true; cardinality := 2; assignment_evid := 1;
     n_start_i_tally := 0; domain_map := None |}.

(** A variable of a domain type the sampler does not support, and a
    multinomial variable with no domain value. *)
Definition exotic : Variable_ :=
  {| id := 0; domain_type := DTYPE_OTHER; is_evid := false;
     is_observation := false; cardinality := 2; assignment_evid := 0;
     n_start_i_tally := 0; domain_map := None |}.

Definition void : Variable_ :=
  {| id := 0; domain_type := DTYPE_MULTINOMIAL; is_evid := false;
     is_observation := false; cardinality := 0; assignment_evid := 0;
     n_start_i_tally := 0; domain_map := None |}.

Definition graph_of (variable : Variable_) : CompactFactorGraph :=
  {| variables := [variable] |}.

(** Collaborators: every potential equal to [p]; an update that changes
    nothing; the dense domain index; storage that comes zeroed. *)
Definition flat_potential (p : R)
    : Variable_ -> Z -> list Z -> list R -> R := fun _ _ _ _ => p.

Definition no_update : Variable_ -> InferenceResult -> R -> InferenceResult :=
  fun _ i _ => i.

Definition dense_index : Variable_ -> Z -> nat := fun _ v => Z.to_nat v.

Definition zeroed : nat -> R := fun _ => 0%R.

(** A worker on the shard [[0, 1)] whose scratch buffer was never used,
    seeded with (10000, 0, 0): its first draw is
    252149039170011 / 2^48, about 0.8958. *)
Definition empty_vector : vector := {| vec_size := 0; vec_data := [] |}.

Definition small_infrs : InferenceResult :=
  {| assignments_evid := [0%Z]; assignments_free := [0%Z];
     weight_values := []; agg_nsamples := [0]; agg_means := [0%R];
     multinomial_tallies := [0; 0] |}.

Definition fresh_worker : GibbsSamplerThread :=
  {| start := 0; end_ := 1;
     p_rand_seed := {| xsubi0 := 10000; xsubi1 := 0; xsubi2 := 0 |};
     varlen_potential_buffer_ := empty_vector;
     infrs := small_infrs;
     sample_evidence := false; learn_non_evidence := true |}.

(** The same worker with a scratch buffer that already holds something. *)
Definition used_worker : GibbsSamplerThread :=
  with_buffer {| vec_size := 1; vec_data := [5%R; 7%R; 9%R] |} fresh_worker.

(** Two boolean variables at the indices that are their ids, a free one
    and an evidence one, and a worker on the shard [[0, 2)] whose
    inference state has a slot for each. *)
Definition frozen : Variable_ :=
  {| id := 1; domain_type := DTYPE_BOOLEAN; is_evid := true;
     is_observation := false; cardinality := 2; assignment_evid := 1;
     n_start_i_tally := 0; domain_map := None |}.

Definition two_coins : CompactFactorGraph :=
  {| variables := [coin; frozen] |}.

Definition pair_infrs : InferenceResult :=
  {| assignments_evid := [0%Z; 0%Z]; assignments_free := [0%Z; 0%Z];
     weight_values := []; agg_nsamples := [0; 0]; agg_means := [0%R; 0%R];
     multinomial_tallies := [] |}.

Definition pair_worker : GibbsSamplerThread :=
  {| start := 0; end_ := 2;
     p_rand_seed := {| xsubi0 := 10000; xsubi1 := 0; xsubi2 := 0 |};
     varlen_potential_buffer_ := empty_vector;
     infrs := pair_infrs;
     sample_evidence := false; learn_non_evidence := true |}.

Section Sampler.

(** [fg], and the members of it and of [Variable] that this header calls
    but does not define. *)
Variable fg : CompactFactorGraph.
Variable potential :
  Variable_ -> VariableValue -> list VariableValue -> list R -> R.
Variable update_weight : Variable_ -> InferenceResult -> R -> InferenceResult.
Variable get_domain_index : Variable_ -> VariableValue -> nat.
Variable INVALID_VALUE : VariableValue.

(** What freshly allocated storage holds, cell by cell. *)
Variable uninit : nat -> R.

(** *** The scratch buffer *)

(** [reserve(n)]: when [n] exceeds the capacity, storage for [n] cells is
    allocated and the [size()] elements are moved over; [size()] itself
    never changes. *)
Definition vec_reserve (n : nat) (v : vector) : vector :=
  if (n <=? vec_capacity v)%nat then v
  else {| vec_size := vec_size v;
          vec_data := take (vec_size v) (vec_data v)
                      ++ map uninit (seq (vec_size v) (n - vec_size v)) |}.

Definition vec_store (i : nat) (x : R) (v : vector) : vector :=
  {| vec_size := vec_size v; vec_data := <[i := x]> (vec_data v) |}.

(* varlen_potential_buffer_.reserve(n) *)
Definition buffer_reserve (n : nat) : Worker unit :=
  fun w => Ok tt (with_buffer (vec_reserve n (varlen_potential_buffer_ w)) w).

(* varlen_potential_buffer_[i] = x *)
Definition buffer_store (i : nat) (x : R) : Worker unit :=
  fun w =>
    if (i <? vec_capacity (varlen_potential_buffer_ w))%nat
    then Ok tt (with_buffer (vec_store i x (varlen_potential_buffer_ w)) w)
    else Halt OutOfStorage w.

(* ... = varlen_potential_buffer_[i] *)
Definition buffer_load (i : nat) : Worker R :=
  fun w =>
    match vec_data (varlen_potential_buffer_ w) !! i with
    | Some x => Ok x w
    | None => Halt OutOfStorage w
    end.

(** *** [draw_sample] *)

(** What the first loop of [COMPUTE_PROPOSAL] computes, read off the
    loop body: the running [sum] and the contents of the cells. *)
Fixpoint log_sum (variable : Variable_) (assignments : list VariableValue)
    (weight_values : list R) (entries : list (VariableValue * nat))
    (sum : R) : R :=
  match entries with
  | [] => sum
  | (value, _) :: rest =>
      log_sum variable assignments weight_values rest
        (logadd sum (potential variable value assignments weight_values))
  end.

Fixpoint stored_cells (variable : Variable_) (assignments : list VariableValue)
    (weight_values : list R) (entries : list (VariableValue * nat))
    (cells : list R) : list R :=
  match entries with
  | [] => cells
  | (value, index) :: rest =>
      stored_cells variable assignments weight_values rest
        (<[index := potential variable value assignments weight_values]> cells)
  end.

(** The probabilities that the second loop subtracts, added up over the
    domain: the sum of [exp (potential - sum)]. *)
Fixpoint total_mass (variable : Variable_) (assignments : list VariableValue)
    (weight_values : list R) (entries : list (VariableValue * nat))
    (sum : R) : R :=
  match entries with
  | [] => 0%R
  | (value, _) :: rest =>
      (exp (potential variable value assignments weight_values - sum)
       + total_mass variable assignments weight_values rest sum)%R
  end.

(** First loop of [COMPUTE_PROPOSAL]. *)
Fixpoint compute_potentials (variable : Variable_)
    (assignments : list VariableValue) (weight_values : list R)
    (entries : list (VariableValue * nat)) (sum : R) : Worker R :=
  match entries with
  | [] => ret sum
  | (value, index) :: rest =>
      buffer_store index (potential variable value assignments weight_values) ;;;
      p <- buffer_load index ;;
      compute_potentials variable assignments weight_values rest (logadd sum p)
  end.

(** Second loop of [COMPUTE_PROPOSAL]; [proposal] is what the variable of
    that name holds when the loop runs out of entries. *)
Fixpoint select_proposal (entries : list (VariableValue * nat))
    (sum r : R) (proposal : VariableValue) : Worker VariableValue :=
  match entries with
  | [] => ret proposal
  | (value, index) :: rest =>
      p <- buffer_load index ;;
      let r' := (r - exp (p - sum))%R in
      if Rle_dec r' 0 then ret value
      else select_proposal rest sum r' proposal
  end.

Definition draw_sample (variable : Variable_)
    (assignments : list VariableValue) (weight_values : list R)
    : Worker VariableValue :=
  match domain_type variable with
  | DTYPE_BOOLEAN =>
      let potential_pos := potential variable 1%Z assignments weight_values in
      let potential_neg := potential variable 0%Z assignments weight_values in
      r <- erand48_p_rand_seed ;;
      if boolean_accept potential_pos potential_neg r then ret 1%Z else ret 0%Z
  | DTYPE_MULTINOMIAL =>
      buffer_reserve (cardinality variable) ;;;
      sum <- compute_potentials variable assignments weight_values
               (domain_entries variable) (-100000)%R ;;
      r <- erand48_p_rand_seed ;;
      proposal <- select_proposal (domain_entries variable) sum r INVALID_VALUE ;;
      assert (negb (proposal =? INVALID_VALUE)%Z) ;;;
      ret proposal
  | DTYPE_OTHER => abort
  end.

(** *** The per-variable steps *)

(* Variable &variable = fg.variables[vid] *)
Definition fg_variable (vid : VariableIndex) : Worker Variable_ :=
  match variables fg !! vid with
  | Some variable => ret variable
  | None => halt OutOfStorage
  end.

Definition sample_sgd_single_variable (vid : VariableIndex) (stepsize : R)
    : Worker unit :=
  variable <- fg_variable vid ;;
  if is_observation variable then ret tt else
  learn <- gets learn_non_evidence ;;
  if negb learn && negb (is_evid variable) then ret tt else
  proposal <- (if is_evid variable
               then ret (assignment_evid variable)
               else i <- gets infrs ;;
                    draw_sample variable (assignments_evid i) (weight_values i)) ;;
  modify_infrs (store_assignments_evid (id variable) proposal) ;;;
  i <- gets infrs ;;
  proposal <- draw_sample variable (assignments_free i) (weight_values i) ;;
  modify_infrs (store_assignments_free (id variable) proposal) ;;;
  modify_infrs (fun i => update_weight variable i stepsize).

(** Lines 143 to 148 of [sample_sgd_single_variable] on their own: the
    free pass and the weight update, as run after the
    evidence-conditioned pass. *)
Definition sgd_free_pass (variable : Variable_) (stepsize : R) : Worker unit :=
  i <- gets infrs ;;
  proposal <- draw_sample variable (assignments_free i) (weight_values i) ;;
  modify_infrs (store_assignments_free (id variable) proposal) ;;;
  modify_infrs (fun i => update_weight variable i stepsize).

Definition sample_single_variable (vid : VariableIndex) : Worker unit :=
  variable <- fg_variable vid ;;
  if is_observation variable then ret tt else
  resample <- gets sample_evidence ;;
  if negb (is_evid variable) || resample then
    i <- gets infrs ;;
    proposal <- draw_sample variable (assignments_evid i) (weight_values i) ;;
    modify_infrs (store_assignments_evid (id variable) proposal) ;;;
    modify_infrs (incr_agg_nsamples (id variable)) ;;;
    match domain_type variable with
    | DTYPE_BOOLEAN => modify_infrs (add_agg_means (id variable) proposal)
    | DTYPE_MULTINOMIAL =>
        modify_infrs (incr_multinomial_tallies
                        (n_start_i_tally variable
                         + get_domain_index variable proposal))
    | DTYPE_OTHER => abort
    end
  else ret tt.

(** *** Sequences of calls *)

(** The calls a driver can make on a worker between two reseeds, and a
    worker running a list of them in order. *)
Inductive step : Type :=
| Sample (vid : VariableIndex)
| SampleSgd (vid : VariableIndex) (stepsize : R).

Definition run_step (s : step) : Worker unit :=
  match s with
  | Sample vid => sample_single_variable vid
  | SampleSgd vid stepsize => sample_sgd_single_variable vid stepsize
  end.

Fixpoint run_steps (steps : list step) : Worker unit :=
  match steps with
  | [] => ret tt
  | s :: rest => run_step s ;;; run_steps rest
  end.

(** The values that a list of calls to [draw_sample] returns, up to the
    first call that halts. *)
Fixpoint draw_sequence
    (calls : list (Variable_ * list VariableValue * list R))
    (w : GibbsSamplerThread) : list (VariableValue + fatal) :=
  match calls with
  | [] => []
  | (variable, assignments, weights) :: rest =>
      let o := draw_sample variable assignments weights w in
      drawn o :: match o with
                 | Ok _ w' => draw_sequence rest w'
                 | Halt _ _ => []
                 end
  end.

Definition step_vid (s : step) : VariableIndex :=
  match s with Sample vid => vid | SampleSgd vid _ => vid end.

(** *** What the collaborators are taken to guarantee *)

(** The learning update mutates the weight values and nothing else of
    the inference state (sections 3 and 6). *)
Definition update_weight_frame : Prop :=
  forall variable i stepsize,
    assignments_evid (update_weight variable i stepsize) = assignments_evid i
    /\ assignments_free (update_weight variable i stepsize) = assignments_free i
    /\ agg_eq (update_weight variable i stepsize) i.

(** A variable sits in [fg.variables] at the index that is its [id]. *)
Definition ids_are_indices : Prop :=
  forall vid variable, variables fg !! vid = Some variable -> id variable = vid.

(** By how much a run of the inference step over the ids [vids] moves the
    sample counter in slot [k]. *)
Definition sweep_increment (vids : list VariableIndex)
    (w : GibbsSamplerThread) (k : nat) : nat :=
  match variables fg !! k with
  | Some variable =>
      if bool_decide (k ∈ vids) && processed variable w then 1 else 0
  | None => 0
  end.

(** How many of the ids [vids] the inference step draws for. *)
Fixpoint processed_count (vids : list VariableIndex)
    (w : GibbsSamplerThread) : nat :=
  match vids with
  | [] => 0
  | vid :: rest =>
      match variables fg !! vid with
      | Some variable => if processed variable w then 1 else 0
      | None => 0
      end + processed_count rest w
  end.

(** *** The sweeps and the reseed *)

(** Modelled from the spec: [set_random_seed] is declared here and defined
    in [gibbs_sampler.cc], which is not among the sources; the
    declaration's comment and section 3 say that it resets the seed
    triple to the given values. *)
Definition set_random_seed (s0 s1 s2 : Z) : Worker unit :=
  fun w => Ok tt (with_seed {| xsubi0 := u16 s0; xsubi1 := u16 s1;
                               xsubi2 := u16 s2 |} w).

(** [for (vid = ...) body(vid);] over the ids [vids]. *)
Fixpoint for_each (body : VariableIndex -> Worker unit)
    (vids : list VariableIndex) : Worker unit :=
  match vids with
  | [] => ret tt
  | vid :: rest => body vid ;;; for_each body rest
  end.

(** The ids of the shard [[start, end)], in increasing order. *)
Definition shard (w : GibbsSamplerThread) : list VariableIndex :=
  seq (start w) (end_ w - start w).

(** Modelled from the spec: [sample] is declared here and defined in
    [gibbs_sampler.cc], which is not among the sources; section 4.2 has
    it run [sample_single_variable] on each id of the shard in
    increasing order. *)
Definition sample : Worker unit :=
  fun w => for_each sample_single_variable (shard w) w.

(** Modelled from the spec: [sample_sgd] is declared here and defined in
    [gibbs_sampler.cc], which is not among the sources; section 4.3 has
    it run [sample_sgd_single_variable] on each id of the shard. *)
Definition sample_sgd (stepsize : R) : Worker unit :=
  fun w => for_each (fun vid => sample_sgd_single_variable vid stepsize)
                    (shard w) w.

(** ** The boolean coin *)

Lemma p_one_bounds p1 p0 : (0 < p_one p1 p0 < 1)%R.
Proof.
  unfold p_one.
  pose proof (exp_pos p1) as H1. pose proof (exp_pos p0) as H0.
  split.
  - apply Rdiv_lt_0_compat; lra.
  - apply (Rmult_lt_reg_r (exp p1 + exp p0)); [lra|].
    unfold Rdiv. rewrite Rmult_assoc, Rinv_l by lra. lra.
Qed.

Lemma coin_factor p1 p0 : (1 + exp (p0 - p1) = / p_one p1 p0)%R.
Proof.
  unfold p_one, Rminus.
  rewrite exp_plus, exp_Ropp.
  pose proof (exp_pos p1). pose proof (exp_pos p0).
  field. split; lra.
Qed.

Lemma boolean_accept_true p1 p0 r :
  boolean_accept p1 p0 r = true <-> (r < p_one p1 p0)%R.
Proof.
  unfold boolean_accept.
  rewrite coin_factor.
  destruct (p_one_bounds p1 p0) as [Hpos _].
  assert (Hiff : (r * / p_one p1 p0 < 1 <-> r < p_one p1 p0)%R).
  { split; intros H.
    - apply (Rmult_lt_compat_r (p_one p1 p0)) in H; [|exact Hpos].
      rewrite Rmult_assoc, Rinv_l in H by lra. lra.
    - apply (Rmult_lt_reg_r (p_one p1 p0)); [exact Hpos|].
      rewrite Rmult_assoc, Rinv_l by lra. lra. }
  destruct (Rlt_dec _ _) as [Hlt|Hnlt]; split; intros H;
    try reflexivity; try discriminate.
  - now apply Hiff.
  - exfalso. apply Hnlt. now apply Hiff.
Qed.

Lemma accept_indicator_below p1 p0 r :
  (r < p_one p1 p0)%R -> accept_indicator p1 p0 r = 1%R.
Proof.
  intros H. unfold accept_indicator.
  apply boolean_accept_true in H. now rewrite H.
Qed.

Lemma accept_indicator_above p1 p0 r :
  (p_one p1 p0 <= r)%R -> accept_indicator p1 p0 r = 0%R.
Proof.
  intros H. unfold accept_indicator.
  destruct (boolean_accept p1 p0 r) eqn:E; [|reflexivity].
  apply boolean_accept_true in E. lra.
Qed.

(** The characteristic function of the accepted draws is a step function
    on [[0, 1]]: 1 on (0, P(1)) and 0 on (P(1), 1). *)
Lemma accept_indicator_adapted p1 p0 :
  adapted_couple (accept_indicator p1 p0) 0 1
    [0%R; p_one p1 p0; 1%R] [1%R; 0%R].
Proof.
  destruct (p_one_bounds p1 p0) as [Hpos Hlt1].
  split; [|split; [|split; [|split]]].
  - intros i Hi. simpl in Hi.
    destruct i as [|[|i]]; simpl; try lra. lia.
  - simpl. unfold Rmin. destruct (Rle_dec 0 1); lra.
  - simpl. unfold Rmax. destruct (Rle_dec 0 1); lra.
  - reflexivity.
  - intros i Hi. simpl in Hi.
    destruct i as [|[|i]]; [| |lia]; intros x [Hx1 Hx2]; simpl in *.
    + now apply accept_indicator_below.
    + apply accept_indicator_above. lra.
Qed.

Lemma accept_indicator_integrable p1 p0 :
  Riemann_integrable (accept_indicator p1 p0) 0 1.
Proof.
  intros eps.
  assert (Hstep : IsStepFun (accept_indicator p1 p0) 0 1).
  { exists [0%R; p_one p1 p0; 1%R], [1%R; 0%R].
    apply accept_indicator_adapted. }
  exists (mkStepFun Hstep).
  exists (mkStepFun (StepFun_P4 0 1 0)).
  split.
  - intros t _. simpl. unfold fct_cte.
    rewrite Rminus_diag, Rabs_R0. lra.
  - rewrite StepFun_P18, Rmult_0_l, Rabs_R0. apply cond_pos.
Qed.

Lemma accept_indicator_integral p1 p0
    (pr : Riemann_integrable (accept_indicator p1 p0) 0 1) :
  RiemannInt pr = p_one p1 p0.
Proof.
  destruct (p_one_bounds p1 p0) as [Hpos Hlt1].
  assert (Hin : (0 <= p_one p1 p0 <= 1)%R) by lra.
  pose (pr1 := RiemannInt_P22 pr Hin).
  pose (pr2 := RiemannInt_P23 pr Hin).
  rewrite <- (RiemannInt_P26 pr1 pr2 pr).
  rewrite (RiemannInt_P18 pr1 (RiemannInt_P14 0 (p_one p1 p0) 1)); [|lra|].
  - rewrite (RiemannInt_P18 pr2 (RiemannInt_P14 (p_one p1 p0) 1 0)); [|lra|].
    + rewrite !RiemannInt_P15. lra.
    + intros x Hx. unfold fct_cte. apply accept_indicator_above. lra.
  - intros x Hx. unfold fct_cte. apply accept_indicator_below. lra.
Qed.

(** ** Reasoning about computations *)

Lemma bind_Ok_inv {A B} (c : Worker A) (k : A -> Worker B) w b w' :
  bind c k w = Ok b w' ->
  exists a w1, c w = Ok a w1 /\ k a w1 = Ok b w'.
Proof.
  unfold bind. destruct (c w) as [a w1|f w1]; [eauto|discriminate].
Qed.

Lemma bind_Halt_inv {A B} (c : Worker A) (k : A -> Worker B) w f w' :
  bind c k w = Halt f w' ->
  c w = Halt f w' \/ exists a w1, c w = Ok a w1 /\ k a w1 = Halt f w'.
Proof.
  unfold bind. destruct (c w) as [a w1|f1 w1]; [eauto|].
  intros H. left. now injection H as -> ->.
Qed.

Lemma bind_Ok {A B} (c : Worker A) (k : A -> Worker B) w a w1 :
  c w = Ok a w1 -> bind c k w = k a w1.
Proof. unfold bind. now intros ->. Qed.

Lemma bind_Halt {A B} (c : Worker A) (k : A -> Worker B) w f w1 :
  c w = Halt f w1 -> bind c k w = Halt f w1.
Proof. unfold bind. now intros ->. Qed.

(** A computation preserves the component [f] of the worker when the
    state it returns or halts in has the [f] it started with. *)
Lemma preserves_ret {A X} (f : GibbsSamplerThread -> X) (a : A) :
  preserves f (ret a).
Proof. intros w. reflexivity. Qed.

Lemma preserves_halt {A X} (f : GibbsSamplerThread -> X) (d : fatal) :
  preserves f (@halt A d).
Proof. intros w. reflexivity. Qed.

Lemma preserves_gets {A X} (f : GibbsSamplerThread -> X)
    (g : GibbsSamplerThread -> A) :
  preserves f (gets g).
Proof. intros w. reflexivity. Qed.

Lemma preserves_bind {A B X} (f : GibbsSamplerThread -> X)
    (c : Worker A) (k : A -> Worker B) :
  preserves f c -> (forall a, preserves f (k a)) -> preserves f (bind c k).
Proof.
  intros Hc Hk w. unfold bind.
  specialize (Hc w). destruct (c w) as [a w1|d w1]; simpl in *.
  - now rewrite Hk.
  - exact Hc.
Qed.

Lemma preserves_assert {X} (f : GibbsSamplerThread -> X) b :
  preserves f (assert b).
Proof. intros w. now destruct b. Qed.

Lemma preserves_if {A X} (f : GibbsSamplerThread -> X) (b : bool)
    (c1 c2 : Worker A) :
  preserves f c1 -> preserves f c2 -> preserves f (if b then c1 else c2).
Proof. now destruct b. Qed.

(** What each primitive leaves alone. *)
Lemma erand48_keeps {X} (f : GibbsSamplerThread -> X) :
  (forall s w, f (with_seed s w) = f w) -> preserves f erand48_p_rand_seed.
Proof. intros Hf w. unfold erand48_p_rand_seed, erand48. simpl. apply Hf. Qed.

Lemma buffer_reserve_keeps {X} (f : GibbsSamplerThread -> X) n :
  (forall b w, f (with_buffer b w) = f w) -> preserves f (buffer_reserve n).
Proof. intros Hf w. simpl. apply Hf. Qed.

Lemma buffer_store_keeps {X} (f : GibbsSamplerThread -> X) i x :
  (forall b w, f (with_buffer b w) = f w) -> preserves f (buffer_store i x).
Proof.
  intros Hf w. unfold buffer_store.
  destruct (_ <? _)%nat; simpl; [apply Hf|reflexivity].
Qed.

Lemma buffer_load_keeps {X} (f : GibbsSamplerThread -> X) i :
  preserves f (buffer_load i).
Proof.
  intros w. unfold buffer_load.
  now destruct (_ !! _).
Qed.

Lemma compute_potentials_keeps {X} (f : GibbsSamplerThread -> X)
    variable assignments weights entries sum :
  (forall b w, f (with_buffer b w) = f w) ->
  preserves f (compute_potentials variable assignments weights entries sum).
Proof.
  intros Hf. revert sum.
  induction entries as [|[value index] rest IH]; intros sum; simpl.
  - apply preserves_ret.
  - apply preserves_bind; [now apply buffer_store_keeps|intros _].
    apply preserves_bind; [apply buffer_load_keeps|intros p].
    apply IH.
Qed.

Lemma select_proposal_keeps {X} (f : GibbsSamplerThread -> X)
    entries sum r proposal :
  preserves f (select_proposal entries sum r proposal).
Proof.
  revert r.
  induction entries as [|[value index] rest IH]; intros r; simpl.
  - apply preserves_ret.
  - apply preserves_bind; [apply buffer_load_keeps|intros p].
    destruct (Rle_dec _ _); [apply preserves_ret|apply IH].
Qed.

(** [draw_sample] leaves alone whatever neither the seed nor the scratch
    buffer is part of. *)
Lemma draw_sample_keeps {X} (f : GibbsSamplerThread -> X)
    variable assignments weights :
  (forall s w, f (with_seed s w) = f w) ->
  (forall b w, f (with_buffer b w) = f w) ->
  preserves f (draw_sample variable assignments weights).
Proof.
  intros Hs Hb. unfold draw_sample.
  destruct (domain_type variable).
  - apply preserves_bind; [now apply erand48_keeps|intros r].
    apply preserves_if; apply preserves_ret.
  - apply preserves_bind; [now apply buffer_reserve_keeps|intros _].
    apply preserves_bind; [now apply compute_potentials_keeps|intros sum].
    apply preserves_bind; [now apply erand48_keeps|intros r].
    apply preserves_bind; [apply select_proposal_keeps|intros proposal].
    apply preserves_bind; [apply preserves_assert|intros _].
    apply preserves_ret.
  - apply preserves_halt.
Qed.

(** The seed moves only through [erand48]. *)
Lemma compute_potentials_seed variable assignments weights entries sum :
  preserves p_rand_seed
    (compute_potentials variable assignments weights entries sum).
Proof. now apply compute_potentials_keeps. Qed.

Lemma erand48_p_rand_seed_eq w :
  erand48_p_rand_seed w
  = Ok (fst (erand48 (p_rand_seed w)))
       (with_seed (next_seed (p_rand_seed w)) w).
Proof. reflexivity. Qed.

(** A draw that returns has called [erand48] exactly once. *)
Lemma draw_sample_Ok_seed variable assignments weights w v w' :
  draw_sample variable assignments weights w = Ok v w' ->
  p_rand_seed w' = next_seed (p_rand_seed w).
Proof.
  unfold draw_sample. destruct (domain_type variable).
  - intros H. apply bind_Ok_inv in H as (r & w1 & Hr & H).
    rewrite erand48_p_rand_seed_eq in Hr. injection Hr as <- <-.
    destruct (boolean_accept _ _ _); injection H as <- <-; reflexivity.
  - intros H.
    apply bind_Ok_inv in H as ([] & w1 & H1 & H).
    apply bind_Ok_inv in H as (sum & w2 & H2 & H).
    apply bind_Ok_inv in H as (r & w3 & H3 & H).
    apply bind_Ok_inv in H as (p & w4 & H4 & H).
    apply bind_Ok_inv in H as ([] & w5 & H5 & H).
    injection H as <- <-.
    pose proof (preserves_assert p_rand_seed
                  (negb (p =? INVALID_VALUE)%Z) w4) as E5.
    rewrite H5 in E5. simpl in E5. rewrite E5.
    pose proof (select_proposal_keeps p_rand_seed
                  (domain_entries variable) sum r INVALID_VALUE w3) as E4.
    rewrite H4 in E4. simpl in E4. rewrite E4.
    rewrite erand48_p_rand_seed_eq in H3. injection H3 as <- <-. simpl.
    pose proof (compute_potentials_seed variable assignments weights
                  (domain_entries variable) (-100000)%R w1) as E2.
    rewrite H2 in E2. simpl in E2. rewrite E2.
    injection H1 as <-. reflexivity.
  - discriminate.
Qed.

(** ** The two loops of the multinomial case *)

Lemma final_state_bind {A B} (c : Worker A) (k : A -> Worker B) w :
  final_state (bind c k w)
  = match c w with
    | Ok a w1 => final_state (k a w1)
    | Halt _ w1 => w1
    end.
Proof. unfold bind. now destruct (c w). Qed.

(** The first loop succeeds when every index lies in the storage; it
    returns the folded sum and leaves the potentials in the cells. *)
Lemma compute_potentials_ok variable assignments weights entries sum w :
  Forall (fun e => e.2 < vec_capacity (varlen_potential_buffer_ w)) entries ->
  compute_potentials variable assignments weights entries sum w
  = Ok (log_sum variable assignments weights entries sum)
       (with_buffer
          {| vec_size := vec_size (varlen_potential_buffer_ w);
             vec_data := stored_cells variable assignments weights
                           entries (vec_data (varlen_potential_buffer_ w)) |}
          w).
Proof.
  revert sum w.
  induction entries as [|[value index] rest IH]; intros sum w Hall; simpl.
  - destruct w as [? ? ? [? ?] ? ? ?]. reflexivity.
  - inversion Hall as [|? ? Hi Hrest]; subst. simpl in Hi.
    unfold bind at 1, buffer_store.
    apply Nat.ltb_lt in Hi as Hib. rewrite Hib.
    unfold bind at 1, buffer_load. simpl.
    rewrite list_lookup_insert_eq by exact Hi.
    rewrite IH.
    + reflexivity.
    + simpl. unfold vec_capacity, vec_store. simpl.
      rewrite length_insert. exact Hrest.
Qed.

(** The second loop only reads. *)
Lemma select_proposal_state entries sum r proposal w :
  final_state (select_proposal entries sum r proposal w) = w.
Proof.
  revert r.
  induction entries as [|[value index] rest IH]; intros r; simpl; [reflexivity|].
  unfold bind, buffer_load.
  destruct (_ !! _); [|reflexivity].
  destruct (Rle_dec _ _); [reflexivity|apply IH].
Qed.

(** It returns the value of one of the entries, or hands back the
    proposal it was given. *)
Lemma select_proposal_value entries sum r proposal w v w' :
  select_proposal entries sum r proposal w = Ok v w' ->
  v ∈ entries.*1 \/ v = proposal.
Proof.
  revert r.
  induction entries as [|[value index] rest IH]; intros r; simpl.
  - intros H. injection H as <- _. now right.
  - unfold bind, buffer_load.
    destruct (_ !! _); [|discriminate].
    destruct (Rle_dec _ _).
    + intros H. injection H as <- _. left. apply list_elem_of_here.
    + intros H. apply IH in H as [H|H]; [left|now right].
      now apply list_elem_of_further.
Qed.

(** Its outcome depends on the worker through the cells it reads only. *)
Lemma select_proposal_agree entries sum r proposal w1 w2 :
  Forall (fun e => vec_data (varlen_potential_buffer_ w1) !! e.2
                   = vec_data (varlen_potential_buffer_ w2) !! e.2) entries ->
  drawn (select_proposal entries sum r proposal w1)
  = drawn (select_proposal entries sum r proposal w2).
Proof.
  revert r.
  induction entries as [|[value index] rest IH]; intros r Hall; simpl;
    [reflexivity|].
  inversion Hall as [|? ? Hi Hrest]; subst. simpl in Hi.
  unfold bind, buffer_load. rewrite Hi.
  destruct (vec_data (varlen_potential_buffer_ w2) !! index) as [p|];
    [|reflexivity].
  destruct (Rle_dec _ _); [reflexivity|now apply IH].
Qed.

(** Cells that the first loop writes do not remember what they held. *)
Lemma stored_cells_length variable assignments weights entries cells :
  length (stored_cells variable assignments weights entries cells)
  = length cells.
Proof.
  revert cells.
  induction entries as [|[value index] rest IH]; intros cells; simpl;
    [reflexivity|].
  now rewrite IH, length_insert.
Qed.

Lemma stored_cells_agree variable assignments weights entries c1 c2 i :
  i < length c1 -> i < length c2 ->
  c1 !! i = c2 !! i \/ i ∈ entries.*2 ->
  stored_cells variable assignments weights entries c1 !! i
  = stored_cells variable assignments weights entries c2 !! i.
Proof.
  revert c1 c2.
  induction entries as [|[value index] rest IH]; intros c1 c2 H1 H2 H; simpl.
  - destruct H as [H|H]; [exact H|]. simpl in H. now apply elem_of_nil in H.
  - apply IH; rewrite ?length_insert; try assumption.
    destruct (decide (index = i)) as [->|Hne].
    + left. now rewrite !list_lookup_insert_eq.
    + rewrite !list_lookup_insert_ne by exact Hne.
      destruct H as [H|H]; [now left|right].
      simpl in H. apply elem_of_cons in H as [H|H]; [congruence|exact H].
Qed.

Lemma vec_reserve_capacity n v :
  vec_size v <= vec_capacity v -> n <= vec_capacity (vec_reserve n v).
Proof.
  intros Hsz. unfold vec_reserve.
  destruct (n <=? vec_capacity v)%nat eqn:E.
  - now apply Nat.leb_le.
  - apply Nat.leb_gt in E. unfold vec_capacity in *. simpl.
    rewrite length_app, length_take, length_map, length_seq. lia.
Qed.

Lemma vec_reserve_size n v : vec_size (vec_reserve n v) = vec_size v.
Proof. unfold vec_reserve. now destruct (_ <=? _)%nat. Qed.

(** ** Independence from the scratch buffer *)

Lemma vec_reserve_wf n v : vec_wf v -> vec_wf (vec_reserve n v).
Proof.
  unfold vec_wf. intros H. rewrite vec_reserve_size.
  unfold vec_reserve. destruct (n <=? vec_capacity v)%nat eqn:E; [exact H|].
  apply Nat.leb_gt in E. unfold vec_capacity in *. simpl.
  rewrite length_app, length_take, length_map, length_seq. lia.
Qed.

Lemma select_proposal_outcome entries sum r proposal w :
  select_proposal entries sum r proposal w
  = match drawn (select_proposal entries sum r proposal w) with
    | inl v => Ok v w
    | inr f => Halt f w
    end.
Proof.
  pose proof (select_proposal_state entries sum r proposal w) as H.
  destruct (select_proposal entries sum r proposal w); simpl in *; now subst.
Qed.

(** The multinomial case as a function of the seed and the inputs: the
    first loop cannot fail on a well-formed domain, and the second reads
    what the first wrote. *)
Lemma draw_sample_multinomial variable assignments weights w :
  domain_type variable = DTYPE_MULTINOMIAL ->
  wf_domain variable ->
  vec_wf (varlen_potential_buffer_ w) ->
  let b := vec_reserve (cardinality variable) (varlen_potential_buffer_ w) in
  let b' := {| vec_size := vec_size b;
               vec_data := stored_cells variable assignments weights
                             (domain_entries variable) (vec_data b) |} in
  let sum := log_sum variable assignments weights
               (domain_entries variable) (-100000)%R in
  let r := fst (erand48 (p_rand_seed w)) in
  let w' := with_seed (next_seed (p_rand_seed w)) (with_buffer b' w) in
  draw_sample variable assignments weights w
  = match drawn (select_proposal (domain_entries variable) sum r
                   INVALID_VALUE w') with
    | inl proposal =>
        if (proposal =? INVALID_VALUE)%Z then Halt AssertionFailed w'
        else Ok proposal w'
    | inr f => Halt f w'
    end.
Proof.
  intros Hty Hdom Hwf b b' sum r w'.
  unfold draw_sample. rewrite Hty.
  unfold bind at 1. unfold buffer_reserve.
  unfold bind at 1. rewrite compute_potentials_ok.
  2:{ simpl. eapply Forall_impl; [exact Hdom|]. intros e He. simpl in *.
      pose proof (vec_reserve_capacity (cardinality variable) _ Hwf). lia. }
  unfold bind at 1. rewrite erand48_p_rand_seed_eq.
  unfold bind at 1. simpl p_rand_seed. simpl varlen_potential_buffer_.
  fold b. fold b'. simpl with_buffer.
  change (with_seed _ _) with w'. fold sum. fold r.
  rewrite (select_proposal_outcome _ _ _ _ w') at 1.
  destruct (drawn _) as [proposal|f]; [|reflexivity].
  unfold bind, assert. destruct (proposal =? INVALID_VALUE)%Z; reflexivity.
Qed.

(** ** The per-variable steps, case by case *)

Lemma draw_sample_infrs variable assignments weights w :
  infrs (final_state (draw_sample variable assignments weights w)) = infrs w.
Proof. now apply (draw_sample_keeps infrs). Qed.

Lemma draw_sample_Ok_infrs variable assignments weights w v w' :
  draw_sample variable assignments weights w = Ok v w' -> infrs w' = infrs w.
Proof.
  intros H. pose proof (draw_sample_infrs variable assignments weights w) as E.
  now rewrite H in E.
Qed.

Lemma draw_sample_Halt_infrs variable assignments weights w f w' :
  draw_sample variable assignments weights w = Halt f w' -> infrs w' = infrs w.
Proof.
  intros H. pose proof (draw_sample_infrs variable assignments weights w) as E.
  now rewrite H in E.
Qed.

Lemma fg_variable_eq vid variable w :
  variables fg !! vid = Some variable -> fg_variable vid w = Ok variable w.
Proof. unfold fg_variable. now intros ->. Qed.

Lemma fg_variable_None vid w :
  variables fg !! vid = None -> fg_variable vid w = Halt OutOfStorage w.
Proof. unfold fg_variable. now intros ->. Qed.

Lemma sample_single_variable_eq vid variable w :
  variables fg !! vid = Some variable ->
  sample_single_variable vid w
  = if is_observation variable then Ok tt w
    else if negb (is_evid variable) || sample_evidence w then
      match draw_sample variable (assignments_evid (infrs w))
              (weight_values (infrs w)) w with
      | Ok proposal w1 =>
          let i1 := incr_agg_nsamples (id variable)
                      (store_assignments_evid (id variable) proposal (infrs w)) in
          match domain_type variable with
          | DTYPE_BOOLEAN =>
              Ok tt (with_infrs (add_agg_means (id variable) proposal i1) w1)
          | DTYPE_MULTINOMIAL =>
              Ok tt (with_infrs
                       (incr_multinomial_tallies
                          (n_start_i_tally variable
                           + get_domain_index variable proposal) i1) w1)
          | DTYPE_OTHER => Halt AbortCalled (with_infrs i1 w1)
          end
      | Halt f w1 => Halt f w1
      end
    else Ok tt w.
Proof.
  intros Hv. unfold sample_single_variable.
  rewrite (bind_Ok _ _ _ _ _ (fg_variable_eq vid variable w Hv)).
  destruct (is_observation variable); [reflexivity|].
  unfold bind at 1. unfold gets at 1.
  destruct (negb (is_evid variable) || sample_evidence w); [|reflexivity].
  unfold bind at 1. unfold gets at 1.
  unfold bind at 1.
  destruct (draw_sample _ _ _ w) as [proposal w1|f w1] eqn:Hd; [|reflexivity].
  apply draw_sample_Ok_infrs in Hd. rewrite <- Hd.
  destruct (domain_type variable); reflexivity.
Qed.

(** The free pass and the weight update that end
    [sample_sgd_single_variable], for a variable and the worker as the
    evidence-conditioned pass left it. *)
Lemma sample_sgd_single_variable_eq vid stepsize variable w :
  variables fg !! vid = Some variable ->
  sample_sgd_single_variable vid stepsize w
  = if is_observation variable then Ok tt w
    else if negb (learn_non_evidence w) && negb (is_evid variable) then Ok tt w
    else if is_evid variable then
      sgd_free_pass variable stepsize
        (with_infrs (store_assignments_evid (id variable)
                       (assignment_evid variable) (infrs w)) w)
    else
      match draw_sample variable (assignments_evid (infrs w))
              (weight_values (infrs w)) w with
      | Ok proposal w1 =>
          sgd_free_pass variable stepsize
            (with_infrs (store_assignments_evid (id variable) proposal
                           (infrs w)) w1)
      | Halt f w1 => Halt f w1
      end.
Proof.
  intros Hv. unfold sample_sgd_single_variable.
  rewrite (bind_Ok _ _ _ _ _ (fg_variable_eq vid variable w Hv)).
  destruct (is_observation variable); [reflexivity|].
  unfold bind at 1. unfold gets at 1.
  destruct (negb (learn_non_evidence w) && negb (is_evid variable));
    [reflexivity|].
  destruct (is_evid variable).
  - reflexivity.
  - unfold bind at 1. unfold bind at 1. unfold gets at 1.
    destruct (draw_sample _ _ _ w) as [proposal w1|f w1] eqn:Hd; [|reflexivity].
    apply draw_sample_Ok_infrs in Hd. rewrite <- Hd. reflexivity.
Qed.

Lemma sgd_free_pass_eq variable stepsize w :
  sgd_free_pass variable stepsize w
  = match draw_sample variable (assignments_free (infrs w))
            (weight_values (infrs w)) w with
    | Ok proposal w1 =>
        Ok tt (with_infrs
                 (update_weight variable
                    (store_assignments_free (id variable) proposal (infrs w))
                    stepsize) w1)
    | Halt f w1 => Halt f w1
    end.
Proof.
  unfold sgd_free_pass. unfold bind at 1. unfold gets at 1.
  unfold bind at 1.
  destruct (draw_sample _ _ _ w) as [proposal w1|f w1] eqn:Hd; [|reflexivity].
  apply draw_sample_Ok_infrs in Hd. rewrite <- Hd. reflexivity.
Qed.

(** A boolean draw is 0 or 1. *)
Lemma draw_sample_boolean variable assignments weights w :
  domain_type variable = DTYPE_BOOLEAN ->
  draw_sample variable assignments weights w
  = Ok (if boolean_accept (potential variable 1%Z assignments weights)
             (potential variable 0%Z assignments weights)
             (fst (erand48 (p_rand_seed w)))
        then 1%Z else 0%Z)
       (with_seed (next_seed (p_rand_seed w)) w).
Proof.
  intros Hty. unfold draw_sample. rewrite Hty.
  unfold bind. rewrite erand48_p_rand_seed_eq.
  now destruct (boolean_accept _ _ _).
Qed.

Lemma draw_sample_other variable assignments weights w :
  domain_type variable = DTYPE_OTHER ->
  draw_sample variable assignments weights w = Halt AbortCalled w.
Proof. intros Hty. unfold draw_sample. now rewrite Hty. Qed.

Lemma fg_variable_Ok vid variable w w' :
  fg_variable vid w = Ok variable w' ->
  variables fg !! vid = Some variable /\ w' = w.
Proof.
  unfold fg_variable. destruct (_ !! _); [|discriminate].
  intros H. injection H as -> ->. now split.
Qed.

(** ** Properties of [draw_sample] *)

Lemma draw_sample_seed variable assignments weights w :
  let w' := final_state (draw_sample variable assignments weights w) in
  p_rand_seed w' = p_rand_seed w \/ p_rand_seed w' = next_seed (p_rand_seed w).
Proof.
  simpl. destruct (domain_type variable) eqn:Hty.
  - rewrite draw_sample_boolean by exact Hty. now right.
  - unfold draw_sample. rewrite Hty.
    rewrite final_state_bind. simpl.
    rewrite final_state_bind.
    pose proof (compute_potentials_seed variable assignments weights
                  (domain_entries variable) (-100000)%R
                  (with_buffer (vec_reserve (cardinality variable)
                                  (varlen_potential_buffer_ w)) w)) as Hc.
    destruct (compute_potentials _ _ _ _ _ _) as [sum w2|f w2]; simpl in Hc.
    + right. rewrite final_state_bind, erand48_p_rand_seed_eq.
      set (w3 := with_seed _ w2).
      assert (Hrest : forall r,
                 preserves p_rand_seed
                   (proposal <- select_proposal (domain_entries variable) sum r
                                  INVALID_VALUE ;;
                    assert (negb (proposal =? INVALID_VALUE)%Z) ;;;
                    ret proposal)).
      { intros r. apply preserves_bind; [apply select_proposal_keeps|].
        intros p. apply preserves_bind; [apply preserves_assert|].
        intros _. apply preserves_ret. }
      rewrite Hrest. subst w3. simpl. now rewrite Hc.
    + now left.
  - rewrite draw_sample_other by exact Hty. now left.
Qed.

(** C10. [draw_sample] never modifies the assignment vectors, the weight
    values or any aggregate array: the state it returns or halts in is
    the state it started in with at most the seed triple and the scratch
    buffer replaced, and the seed is either untouched or advanced by the
    one [erand48] call. *)
Theorem draw_sample_private_effects variable assignments weights w :
  let w' := final_state (draw_sample variable assignments weights w) in
  infrs w' = infrs w
  /\ w' = with_seed (p_rand_seed w')
            (with_buffer (varlen_potential_buffer_ w') w)
  /\ (p_rand_seed w' = p_rand_seed w
      \/ p_rand_seed w' = next_seed (p_rand_seed w)).
Proof.
  intros w'.
  assert (Hi : infrs w' = infrs w) by apply draw_sample_infrs.
  assert (Hs : start w' = start w)
    by now apply (draw_sample_keeps start).
  assert (He : end_ w' = end_ w)
    by now apply (draw_sample_keeps end_).
  assert (Hse : sample_evidence w' = sample_evidence w)
    by now apply (draw_sample_keeps sample_evidence).
  assert (Hl : learn_non_evidence w' = learn_non_evidence w)
    by now apply (draw_sample_keeps learn_non_evidence).
  split; [exact Hi|]. split; [|apply draw_sample_seed].
  clearbody w'. destruct w', w. simpl in *. now subst.
Qed.

(** C1. For a boolean variable with potentials p1 and p0, [draw_sample]
    returns 1 exactly when its uniform draw r satisfies
    r * (1 + exp(p0 - p1)) < 1; the draws that satisfy it are those below
    exp(p1) / (exp(p1) + exp(p0)), a number strictly between 0 and 1; so
    the accepted part of [0, 1) has that measure: the characteristic
    function of the accepted draws integrates to it over [0, 1]. *)
Theorem boolean_coin_probability variable assignments weights w :
  domain_type variable = DTYPE_BOOLEAN ->
  let p1 := potential variable 1%Z assignments weights in
  let p0 := potential variable 0%Z assignments weights in
  (drawn (draw_sample variable assignments weights w) = inl 1%Z
   <-> (fst (erand48 (p_rand_seed w)) * (1 + exp (p0 - p1)) < 1)%R)
  /\ (forall r : R,
        (r * (1 + exp (p0 - p1)) < 1)%R <-> (r < p_one p1 p0)%R)
  /\ (forall r : R,
        accept_indicator p1 p0 r
        = if Rlt_dec (r * (1 + exp (p0 - p1))) 1 then 1%R else 0%R)
  /\ (0 < p_one p1 p0 < 1)%R
  /\ exists pr : Riemann_integrable (accept_indicator p1 p0) 0 1,
       RiemannInt pr = (exp p1 / (exp p1 + exp p0))%R.
Proof.
  intros Hty p1 p0.
  assert (Hrule : forall r : R,
             (r * (1 + exp (p0 - p1)) < 1)%R <-> (r < p_one p1 p0)%R).
  { intros r. rewrite <- boolean_accept_true. unfold boolean_accept.
    destruct (Rlt_dec _ _) as [Hlt|Hnlt]; split; intros H;
      solve [reflexivity|assumption|discriminate|contradiction]. }
  split; [|split; [exact Hrule|split; [|split]]].
  - rewrite draw_sample_boolean by exact Hty. simpl. fold p1 p0.
    rewrite Hrule, <- boolean_accept_true.
    destruct (boolean_accept _ _ _); split; intros H;
      solve [reflexivity|discriminate].
  - intros r. unfold accept_indicator, boolean_accept.
    now destruct (Rlt_dec _ _).
  - apply p_one_bounds.
  - exists (accept_indicator_integrable p1 p0).
    apply accept_indicator_integral.
Qed.

(** ** The unselected draw *)

Lemma select_proposal_unselected entries sum r proposal w :
  never_selected (vec_data (varlen_potential_buffer_ w)) entries sum r ->
  select_proposal entries sum r proposal w = Ok proposal w.
Proof.
  revert r.
  induction entries as [|[value index] rest IH]; intros r; simpl.
  - reflexivity.
  - intros (p & Hp & Hpos & Hrest).
    unfold bind, buffer_load. rewrite Hp.
    destruct (Rle_dec _ _) as [Hle|_]; [lra|].
    now apply IH.
Qed.

Lemma draw_sample_multinomial_Ok variable assignments weights w v w' :
  domain_type variable = DTYPE_MULTINOMIAL ->
  draw_sample variable assignments weights w = Ok v w' ->
  v <> INVALID_VALUE /\ v ∈ (domain_entries variable).*1.
Proof.
  intros Hty. unfold draw_sample. rewrite Hty. intros H.
  apply bind_Ok_inv in H as ([] & w1 & H1 & H).
  apply bind_Ok_inv in H as (sum & w2 & H2 & H).
  apply bind_Ok_inv in H as (r & w3 & H3 & H).
  apply bind_Ok_inv in H as (p & w4 & H4 & H).
  apply bind_Ok_inv in H as ([] & w5 & H5 & H).
  injection H as <- <-.
  unfold assert in H5.
  destruct (p =? INVALID_VALUE)%Z eqn:E; [discriminate|].
  apply Z.eqb_neq in E. split; [exact E|].
  apply select_proposal_value in H4 as [H4|H4]; [exact H4|contradiction].
Qed.

(** C3. When the second loop of a multinomial draw runs through the
    domain without r <= 0 ever holding, [draw_sample] halts on its
    assertion; a multinomial draw that returns never returns
    [INVALID_VALUE]; and a step whose draw halts halts there too, in the
    state of the draw, with the assignment vectors and everything else
    in [infrs] as they were when the draw began. *)
Theorem unselected_draw_halts vid variable stepsize :
  variables fg !! vid = Some variable ->
  domain_type variable = DTYPE_MULTINOMIAL ->
  (forall assignments weights w sum w1,
      compute_potentials variable assignments weights
        (domain_entries variable) (-100000)%R
        (with_buffer (vec_reserve (cardinality variable)
                        (varlen_potential_buffer_ w)) w) = Ok sum w1 ->
      never_selected (vec_data (varlen_potential_buffer_ w1))
        (domain_entries variable) sum (fst (erand48 (p_rand_seed w1))) ->
      draw_sample variable assignments weights w
      = Halt AssertionFailed (with_seed (next_seed (p_rand_seed w1)) w1))
  /\ (forall assignments weights w v w',
        draw_sample variable assignments weights w = Ok v w' ->
        v <> INVALID_VALUE)
  /\ (forall w f w1,
        is_observation variable = false ->
        negb (is_evid variable) || sample_evidence w = true ->
        draw_sample variable (assignments_evid (infrs w))
          (weight_values (infrs w)) w = Halt f w1 ->
        sample_single_variable vid w = Halt f w1 /\ infrs w1 = infrs w)
  /\ (forall w f w1,
        is_observation variable = false ->
        learn_non_evidence w = true ->
        is_evid variable = false ->
        draw_sample variable (assignments_evid (infrs w))
          (weight_values (infrs w)) w = Halt f w1 ->
        sample_sgd_single_variable vid stepsize w = Halt f w1
        /\ infrs w1 = infrs w)
  /\ (forall w f w1,
        draw_sample variable (assignments_free (infrs w))
          (weight_values (infrs w)) w = Halt f w1 ->
        sgd_free_pass variable stepsize w = Halt f w1 /\ infrs w1 = infrs w).
Proof.
  intros Hv Hty. split; [|split; [|split; [|split]]].
  - intros assignments weights w sum w1 H1 Hnever.
    unfold draw_sample. rewrite Hty.
    unfold bind at 1. unfold buffer_reserve.
    unfold bind at 1. rewrite H1.
    unfold bind at 1. rewrite erand48_p_rand_seed_eq.
    unfold bind at 1.
    rewrite select_proposal_unselected by exact Hnever.
    unfold bind, assert. now rewrite Z.eqb_refl.
  - intros assignments weights w v w' H.
    now apply draw_sample_multinomial_Ok in H.
  - intros w f w1 Hobs Hgate Hd.
    rewrite (sample_single_variable_eq _ _ _ Hv), Hobs, Hgate, Hd.
    split; [reflexivity|]. now apply draw_sample_Halt_infrs in Hd.
  - intros w f w1 Hobs Hlearn Hevid Hd.
    rewrite (sample_sgd_single_variable_eq _ _ _ _ Hv), Hobs, Hlearn, Hevid.
    simpl. rewrite Hd.
    split; [reflexivity|]. now apply draw_sample_Halt_infrs in Hd.
  - intros w f w1 Hd.
    rewrite sgd_free_pass_eq, Hd.
    split; [reflexivity|]. now apply draw_sample_Halt_infrs in Hd.
Qed.

(** ** Properties of the per-variable steps *)

(** C5. In the inference step of a variable that is no observation, with
    gate = (not evidence, or evidence is resampled): when the gate is
    closed the step returns with the whole state as it was; when it is
    open and the draw returns a proposal, the step writes the proposal
    into the evidence assignment vector at the variable's id, increments
    its sample counter, and adds to its mean or increments its tally;
    and on a step that returns, the counter has moved exactly when the
    gate was open. *)
Theorem evidence_gate vid variable w :
  variables fg !! vid = Some variable ->
  is_observation variable = false ->
  let gate := negb (is_evid variable) || sample_evidence w in
  (gate = false -> sample_single_variable vid w = Ok tt w)
  /\ (gate = true ->
      forall proposal w1,
        draw_sample variable (assignments_evid (infrs w))
          (weight_values (infrs w)) w = Ok proposal w1 ->
        exists w',
          sample_single_variable vid w = Ok tt w'
          /\ assignments_evid (infrs w')
             = <[id variable := proposal]> (assignments_evid (infrs w))
          /\ assignments_free (infrs w') = assignments_free (infrs w)
          /\ weight_values (infrs w') = weight_values (infrs w)
          /\ agg_nsamples (infrs w')
             = alter S (id variable) (agg_nsamples (infrs w))
          /\ (domain_type variable = DTYPE_BOOLEAN ->
              agg_means (infrs w')
              = alter (fun m => (m + IZR proposal)%R) (id variable)
                  (agg_means (infrs w))
              /\ multinomial_tallies (infrs w')
                 = multinomial_tallies (infrs w))
          /\ (domain_type variable = DTYPE_MULTINOMIAL ->
              multinomial_tallies (infrs w')
              = alter S (n_start_i_tally variable
                         + get_domain_index variable proposal)
                  (multinomial_tallies (infrs w))
              /\ agg_means (infrs w') = agg_means (infrs w)))
  /\ (forall w' n,
        sample_single_variable vid w = Ok tt w' ->
        agg_nsamples (infrs w) !! id variable = Some n ->
        (agg_nsamples (infrs w') !! id variable = Some (S n) <-> gate = true)
        /\ (gate = false -> w' = w)).
Proof.
  intros Hv Hobs gate.
  pose proof (sample_single_variable_eq vid variable w Hv) as Heq.
  rewrite Hobs in Heq. fold gate in Heq.
  split; [|split].
  - intros Hg. now rewrite Heq, Hg.
  - intros Hg proposal w1 Hd. rewrite Heq, Hg, Hd.
    destruct (domain_type variable) eqn:Hty.
    + eexists. split; [reflexivity|]. simpl.
      repeat split; try reflexivity; discriminate.
    + eexists. split; [reflexivity|]. simpl.
      repeat split; try reflexivity; discriminate.
    + rewrite draw_sample_other in Hd by exact Hty. discriminate.
  - intros w' n Hstep Hn. rewrite Heq in Hstep.
    destruct gate eqn:Hg.
    + split; [|discriminate]. split; [reflexivity|intros _].
      destruct (draw_sample _ _ _ w) as [proposal w1|f w1]; [|discriminate].
      destruct (domain_type variable); try discriminate;
        injection Hstep as <-;
        cbn [infrs with_infrs agg_nsamples add_agg_means
               incr_multinomial_tallies incr_agg_nsamples
               store_assignments_evid];
        now rewrite list_lookup_alter_eq, Hn.
    + injection Hstep as <-.
      split; [|reflexivity]. rewrite Hn.
      split; [intros H; injection H; lia|discriminate].
Qed.

(** C7. In the SGD step of a variable that is processed: if it is
    evidence, the evidence-conditioned pass writes its pinned
    [assignment_evid] into the evidence assignment vector at its id and
    draws nothing (seed and scratch buffer enter the free pass as they
    were, and the whole step advances the seed once); if it is not, the
    value written is the one that [draw_sample] returns against the
    evidence assignment vector (and the whole step advances the seed
    twice), and a draw that halts halts the step. *)
Theorem sgd_evidence_pass vid variable stepsize w :
  variables fg !! vid = Some variable ->
  is_observation variable = false ->
  learn_non_evidence w || is_evid variable = true ->
  (is_evid variable = true ->
   let w1 := with_infrs (store_assignments_evid (id variable)
                           (assignment_evid variable) (infrs w)) w in
   sample_sgd_single_variable vid stepsize w
   = sgd_free_pass variable stepsize w1
   /\ assignments_evid (infrs w1)
      = <[id variable := assignment_evid variable]> (assignments_evid (infrs w))
   /\ p_rand_seed w1 = p_rand_seed w
   /\ varlen_potential_buffer_ w1 = varlen_potential_buffer_ w
   /\ (forall w', sample_sgd_single_variable vid stepsize w = Ok tt w' ->
                  p_rand_seed w' = next_seed (p_rand_seed w)))
  /\ (is_evid variable = false ->
      match draw_sample variable (assignments_evid (infrs w))
              (weight_values (infrs w)) w with
      | Ok proposal w0 =>
          let w1 := with_infrs (store_assignments_evid (id variable) proposal
                                  (infrs w)) w0 in
          sample_sgd_single_variable vid stepsize w
          = sgd_free_pass variable stepsize w1
          /\ assignments_evid (infrs w1)
             = <[id variable := proposal]> (assignments_evid (infrs w))
          /\ p_rand_seed w1 = next_seed (p_rand_seed w)
          /\ (forall w', sample_sgd_single_variable vid stepsize w = Ok tt w' ->
                         p_rand_seed w' = next_seed (next_seed (p_rand_seed w)))
      | Halt f w0 => sample_sgd_single_variable vid stepsize w = Halt f w0
      end).
Proof.
  intros Hv Hobs Hproc.
  pose proof (sample_sgd_single_variable_eq vid stepsize variable w Hv) as Heq.
  rewrite Hobs in Heq.
  assert (Hskip : negb (learn_non_evidence w) && negb (is_evid variable) = false).
  { destruct (learn_non_evidence w), (is_evid variable); simpl in *;
      congruence. }
  rewrite Hskip in Heq.
  assert (Hfree : forall w1 w',
             sgd_free_pass variable stepsize w1 = Ok tt w' ->
             p_rand_seed w' = next_seed (p_rand_seed w1)).
  { intros w1 w' H. rewrite sgd_free_pass_eq in H.
    destruct (draw_sample _ _ _ w1) as [p w2|f w2] eqn:Hd; [|discriminate].
    injection H as <-. simpl. now apply draw_sample_Ok_seed in Hd. }
  split; intros He; rewrite He in Heq.
  - simpl. repeat split; try exact Heq.
    intros w' H. rewrite Heq in H. now apply Hfree in H.
  - destruct (draw_sample _ _ _ w) as [proposal w0|f w0] eqn:Hd; [|exact Heq].
    apply draw_sample_Ok_seed in Hd as Hseed.
    simpl. repeat split; try assumption.
    intros w' H. rewrite Heq in H. apply Hfree in H.
    simpl in H. now rewrite H, Hseed.
Qed.

(** ** What a step leaves alone in the inference state *)

Lemma sample_single_variable_keeps_infrs {X} (g : InferenceResult -> X) vid :
  (forall variable,
      variables fg !! vid = Some variable ->
      is_observation variable = false ->
      forall i,
        (forall v, g (store_assignments_evid (id variable) v i) = g i)
        /\ g (incr_agg_nsamples (id variable) i) = g i
        /\ (forall v, g (add_agg_means (id variable) v i) = g i)
        /\ (forall t, g (incr_multinomial_tallies t i) = g i)) ->
  preserves (fun w => g (infrs w)) (sample_single_variable vid).
Proof.
  intros Hg w.
  destruct (variables fg !! vid) as [variable|] eqn:Hv.
  - rewrite (sample_single_variable_eq _ _ _ Hv).
    destruct (is_observation variable) eqn:Hobs; [reflexivity|].
    specialize (Hg variable eq_refl Hobs).
    destruct (negb (is_evid variable) || sample_evidence w); [|reflexivity].
    destruct (draw_sample _ _ _ w) as [proposal w1|f w1] eqn:Hd.
    + assert (E : g (incr_agg_nsamples (id variable)
                       (store_assignments_evid (id variable) proposal (infrs w)))
                  = g (infrs w)).
      { destruct (Hg (store_assignments_evid (id variable) proposal (infrs w)))
          as (_ & -> & _).
        now destruct (Hg (infrs w)) as (-> & _). }
      destruct (domain_type variable); simpl.
      * destruct (Hg (incr_agg_nsamples (id variable)
                        (store_assignments_evid (id variable) proposal (infrs w))))
          as (_ & _ & -> & _).
        exact E.
      * destruct (Hg (incr_agg_nsamples (id variable)
                        (store_assignments_evid (id variable) proposal (infrs w))))
          as (_ & _ & _ & ->).
        exact E.
      * exact E.
    + simpl. now rewrite (draw_sample_Halt_infrs _ _ _ _ _ _ Hd).
  - unfold sample_single_variable.
    now rewrite (bind_Halt _ _ _ _ _ (fg_variable_None vid w Hv)).
Qed.

Lemma sgd_free_pass_keeps_infrs {X} (g : InferenceResult -> X)
    variable stepsize :
  (forall i,
      (forall v, g (store_assignments_free (id variable) v i) = g i)
      /\ g (update_weight variable i stepsize) = g i) ->
  preserves (fun w => g (infrs w)) (sgd_free_pass variable stepsize).
Proof.
  intros Hg w. rewrite sgd_free_pass_eq.
  destruct (draw_sample _ _ _ w) as [proposal w1|f w1] eqn:Hd; simpl.
  - destruct (Hg (store_assignments_free (id variable) proposal (infrs w)))
      as (_ & ->).
    now destruct (Hg (infrs w)) as (-> & _).
  - now rewrite (draw_sample_Halt_infrs _ _ _ _ _ _ Hd).
Qed.

Lemma sample_sgd_single_variable_keeps_infrs {X} (g : InferenceResult -> X)
    vid stepsize :
  (forall variable,
      variables fg !! vid = Some variable ->
      is_observation variable = false ->
      forall i,
        (forall v, g (store_assignments_evid (id variable) v i) = g i)
        /\ (forall v, g (store_assignments_free (id variable) v i) = g i)
        /\ g (update_weight variable i stepsize) = g i) ->
  preserves (fun w => g (infrs w)) (sample_sgd_single_variable vid stepsize).
Proof.
  intros Hg w.
  destruct (variables fg !! vid) as [variable|] eqn:Hv.
  - rewrite (sample_sgd_single_variable_eq _ _ _ _ Hv).
    destruct (is_observation variable) eqn:Hobs; [reflexivity|].
    specialize (Hg variable eq_refl Hobs).
    destruct (negb (learn_non_evidence w) && negb (is_evid variable));
      [reflexivity|].
    assert (Hfree : preserves (fun w => g (infrs w))
                      (sgd_free_pass variable stepsize)).
    { apply sgd_free_pass_keeps_infrs. intros i.
      destruct (Hg i) as (_ & H2 & H3). now split. }
    destruct (is_evid variable).
    + rewrite Hfree. simpl. now destruct (Hg (infrs w)) as (-> & _).
    + destruct (draw_sample _ _ _ w) as [proposal w1|f w1] eqn:Hd.
      * rewrite Hfree. simpl. now destruct (Hg (infrs w)) as (-> & _).
      * simpl. now rewrite (draw_sample_Halt_infrs _ _ _ _ _ _ Hd).
  - unfold sample_sgd_single_variable.
    now rewrite (bind_Halt _ _ _ _ _ (fg_variable_None vid w Hv)).
Qed.

Lemma run_steps_preserves {X} (f : GibbsSamplerThread -> X) steps :
  Forall (fun s => preserves f (run_step s)) steps ->
  preserves f (run_steps steps).
Proof.
  induction 1 as [|s rest Hs _ IH]; simpl.
  - apply preserves_ret.
  - apply preserves_bind; [exact Hs|intros _; exact IH].
Qed.

Lemma slots_at_other k j i :
  j <> k ->
  (forall v, slots_at k (store_assignments_evid j v i) = slots_at k i)
  /\ (forall v, slots_at k (store_assignments_free j v i) = slots_at k i)
  /\ slots_at k (incr_agg_nsamples j i) = slots_at k i
  /\ (forall v, slots_at k (add_agg_means j v i) = slots_at k i)
  /\ (forall t, slots_at k (incr_multinomial_tallies t i) = slots_at k i).
Proof.
  intros Hne. unfold slots_at. simpl.
  repeat split; intros;
    rewrite ?list_lookup_insert_ne, ?list_lookup_alter_ne by exact Hne;
    reflexivity.
Qed.

Lemma slots_at_update_weight k variable i stepsize :
  update_weight_frame ->
  slots_at k (update_weight variable i stepsize) = slots_at k i.
Proof.
  intros Hu. destruct (Hu variable i stepsize) as (H1 & H2 & H3 & H4 & _).
  unfold slots_at. now rewrite H1, H2, H3, H4.
Qed.

(** C6. For a variable with [is_observation] set, the inference step and
    the SGD step both return at once with the whole state of the worker
    as it was (both assignment vectors, every aggregate, the weights,
    the seed), and so does any sequence of such steps, however long.
    When moreover every variable sits at the index that is its id and
    the weight update touches weights only, no sequence of steps on any
    variables changes what the two assignment vectors, the sample
    counters and the mean accumulators hold at the observation's id. *)
Theorem observation_untouched vid variable :
  variables fg !! vid = Some variable ->
  is_observation variable = true ->
  (forall w, sample_single_variable vid w = Ok tt w)
  /\ (forall stepsize w, sample_sgd_single_variable vid stepsize w = Ok tt w)
  /\ (forall steps w,
        Forall (fun s => step_vid s = vid) steps ->
        run_steps steps w = Ok tt w)
  /\ (ids_are_indices -> update_weight_frame ->
      forall steps w,
        slots_at (id variable) (infrs (final_state (run_steps steps w)))
        = slots_at (id variable) (infrs w)).
Proof.
  intros Hv Hobs.
  assert (H1 : forall w, sample_single_variable vid w = Ok tt w).
  { intros w. now rewrite (sample_single_variable_eq _ _ _ Hv), Hobs. }
  assert (H2 : forall stepsize w,
             sample_sgd_single_variable vid stepsize w = Ok tt w).
  { intros stepsize w.
    now rewrite (sample_sgd_single_variable_eq _ _ _ _ Hv), Hobs. }
  split; [exact H1|]. split; [exact H2|]. split.
  - intros steps w Hall. revert w.
    induction Hall as [|s rest Hs _ IH]; intros w; simpl; [reflexivity|].
    unfold bind. destruct s as [v|v stepsize]; simpl in Hs; subst v; simpl.
    + rewrite H1. apply IH.
    + rewrite H2. apply IH.
  - intros Hids Hu steps.
    apply (run_steps_preserves (fun w => slots_at (id variable) (infrs w))).
    apply Forall_forall. intros s _.
    rewrite (Hids _ _ Hv).
    destruct (decide (step_vid s = vid)) as [He|Hne].
    + intros w. destruct s as [v|v stepsize]; simpl in He; subst v; simpl.
      * now rewrite H1.
      * now rewrite H2.
    + destruct s as [v|v stepsize]; simpl in Hne; simpl.
      * apply sample_single_variable_keeps_infrs.
        intros u Hu1 _ i. rewrite (Hids _ _ Hu1).
        destruct (slots_at_other vid v i Hne) as (E1 & E2 & E3 & E4 & E5).
        auto.
      * apply sample_sgd_single_variable_keeps_infrs.
        intros u Hu1 _ i. rewrite (Hids _ _ Hu1).
        destruct (slots_at_other vid v i Hne) as (E1 & E2 & E3 & E4 & E5).
        repeat split; auto. now apply slots_at_update_weight.
Qed.

(** ** The aggregates *)

Lemma Forall2_le_refl (l : list nat) : Forall2 le l l.
Proof. apply Forall_Forall2_diag, Forall_forall. intros; lia. Qed.

Lemma Forall2_Rle_refl (l : list R) : Forall2 Rle l l.
Proof. apply Forall_Forall2_diag, Forall_forall. intros; lra. Qed.

Lemma agg_le_refl i : agg_le i i.
Proof.
  repeat split; [apply Forall2_le_refl|apply Forall2_Rle_refl|
                 apply Forall2_le_refl].
Qed.

Lemma agg_le_trans i1 i2 i3 : agg_le i1 i2 -> agg_le i2 i3 -> agg_le i1 i3.
Proof.
  intros (A1 & A2 & A3) (B1 & B2 & B3). repeat split.
  - eapply Forall2_trans; [|exact A1|exact B1]. intros; lia.
  - eapply Forall2_trans; [|exact A2|exact B2]. intros; lra.
  - eapply Forall2_trans; [|exact A3|exact B3]. intros; lia.
Qed.

Lemma agg_eq_le i1 i2 : agg_eq i2 i1 -> agg_le i1 i2.
Proof.
  intros (E1 & E2 & E3). unfold agg_le. rewrite E1, E2, E3.
  apply agg_le_refl.
Qed.

Lemma Forall2_le_incr (l : list nat) k : Forall2 le l (alter S k l).
Proof.
  apply Forall2_alter_r; [apply Forall2_le_refl|]. intros; lia.
Qed.

Lemma Forall2_Rle_add (l : list R) k (v : Z) :
  (0 <= v)%Z -> Forall2 Rle l (alter (fun m => (m + IZR v)%R) k l).
Proof.
  intros Hv. apply Forall2_alter_r; [apply Forall2_Rle_refl|].
  intros x y _ _ Hxy. apply IZR_le in Hv. lra.
Qed.

Lemma draw_sample_boolean_nonneg variable assignments weights w v w' :
  domain_type variable = DTYPE_BOOLEAN ->
  draw_sample variable assignments weights w = Ok v w' -> (0 <= v)%Z.
Proof.
  intros Hty. rewrite draw_sample_boolean by exact Hty.
  intros H. injection H as <- _. destruct (boolean_accept _ _ _); lia.
Qed.

Lemma sample_single_variable_agg_le vid w :
  agg_le (infrs w) (infrs (final_state (sample_single_variable vid w))).
Proof.
  destruct (variables fg !! vid) as [variable|] eqn:Hv.
  - rewrite (sample_single_variable_eq _ _ _ Hv).
    destruct (is_observation variable); [apply agg_le_refl|].
    destruct (negb (is_evid variable) || sample_evidence w);
      [|apply agg_le_refl].
    destruct (draw_sample _ _ _ w) as [proposal w1|f w1] eqn:Hd.
    + destruct (domain_type variable) eqn:Hty; simpl; unfold agg_le; simpl.
      * repeat split; [apply Forall2_le_incr| |apply Forall2_le_refl].
        apply Forall2_Rle_add.
        now apply draw_sample_boolean_nonneg in Hd.
      * repeat split; [apply Forall2_le_incr|apply Forall2_Rle_refl|
                       apply Forall2_le_incr].
      * repeat split; [apply Forall2_le_incr|apply Forall2_Rle_refl|
                       apply Forall2_le_refl].
    + simpl. rewrite (draw_sample_Halt_infrs _ _ _ _ _ _ Hd).
      apply agg_le_refl.
  - unfold sample_single_variable.
    rewrite (bind_Halt _ _ _ _ _ (fg_variable_None vid w Hv)).
    apply agg_le_refl.
Qed.

Lemma sample_sgd_single_variable_agg_eq vid stepsize w :
  update_weight_frame ->
  agg_eq (infrs (final_state (sample_sgd_single_variable vid stepsize w)))
         (infrs w).
Proof.
  intros Hu.
  pose proof (sample_sgd_single_variable_keeps_infrs
                (fun i => (agg_nsamples i, agg_means i, multinomial_tallies i))
                vid stepsize) as H.
  simpl in H.
  assert (E : (agg_nsamples
                 (infrs (final_state (sample_sgd_single_variable vid stepsize w))),
               agg_means
                 (infrs (final_state (sample_sgd_single_variable vid stepsize w))),
               multinomial_tallies
                 (infrs (final_state (sample_sgd_single_variable vid stepsize w))))
              = (agg_nsamples (infrs w), agg_means (infrs w),
                 multinomial_tallies (infrs w))).
  { apply H. intros variable _ _ i. repeat split.
    destruct (Hu variable i stepsize) as (_ & _ & -> & -> & ->). reflexivity. }
  injection E as E1 E2 E3. now repeat split.
Qed.

Lemma run_steps_agg_le steps w :
  update_weight_frame ->
  agg_le (infrs w) (infrs (final_state (run_steps steps w))).
Proof.
  intros Hu. revert w.
  induction steps as [|s rest IH]; intros w; simpl; [apply agg_le_refl|].
  rewrite final_state_bind.
  assert (Hs : agg_le (infrs w) (infrs (final_state (run_step s w)))).
  { destruct s as [vid|vid stepsize]; simpl.
    - apply sample_single_variable_agg_le.
    - apply agg_eq_le. now apply sample_sgd_single_variable_agg_eq. }
  destruct (run_step s w) as [[] w1|f w1]; simpl in Hs; [|exact Hs].
  eapply agg_le_trans; [exact Hs|apply IH].
Qed.

(** One inference step and the sample counters. *)
Lemma sample_single_variable_counter vid w w' :
  sample_single_variable vid w = Ok tt w' ->
  exists variable,
    variables fg !! vid = Some variable
    /\ sample_evidence w' = sample_evidence w
    /\ agg_nsamples (infrs w')
       = if processed variable w
         then alter S (id variable) (agg_nsamples (infrs w))
         else agg_nsamples (infrs w).
Proof.
  intros H.
  destruct (variables fg !! vid) as [variable|] eqn:Hv.
  - exists variable. split; [reflexivity|].
    rewrite (sample_single_variable_eq _ _ _ Hv) in H.
    unfold processed.
    destruct (is_observation variable); simpl.
    { injection H as <-. now split. }
    destruct (negb (is_evid variable) || sample_evidence w); simpl.
    2:{ injection H as <-. now split. }
    destruct (draw_sample _ _ _ w) as [proposal w1|f w1] eqn:Hd;
      [|discriminate].
    pose proof (draw_sample_keeps sample_evidence variable
                  (assignments_evid (infrs w)) (weight_values (infrs w))
                  (fun _ _ => eq_refl) (fun _ _ => eq_refl) w) as Hse.
    rewrite Hd in Hse. simpl in Hse.
    destruct (domain_type variable); try discriminate;
      injection H as <-; simpl; now split.
  - unfold sample_single_variable in H.
    rewrite (bind_Halt _ _ _ _ _ (fg_variable_None vid w Hv)) in H.
    discriminate.
Qed.

Lemma sweep_counters vids :
  ids_are_indices ->
  NoDup vids ->
  forall w w',
    for_each sample_single_variable vids w = Ok tt w' ->
    forall k n,
      agg_nsamples (infrs w) !! k = Some n ->
      agg_nsamples (infrs w') !! k = Some (n + sweep_increment vids w k).
Proof.
  intros Hids Hnd.
  induction Hnd as [|vid rest Hnotin Hnd IH]; intros w w' Hrun k n Hn.
  - simpl in Hrun. injection Hrun as <-.
    unfold sweep_increment.
    destruct (variables fg !! k); rewrite Hn; f_equal.
    + rewrite bool_decide_eq_false_2 by apply not_elem_of_nil. simpl. lia.
    + lia.
  - simpl in Hrun. apply bind_Ok_inv in Hrun as ([] & w1 & Hstep & Hrest).
    apply sample_single_variable_counter in Hstep
      as (variable & Hv & Hse & Hcount).
    pose proof (Hids _ _ Hv) as Hid. rewrite Hid in Hcount.
    assert (Hproc : forall u, processed u w1 = processed u w).
    { intros u. unfold processed. now rewrite Hse. }
    assert (Hinc : sweep_increment rest w1 k = sweep_increment rest w k).
    { unfold sweep_increment. destruct (variables fg !! k); [|reflexivity].
      now rewrite Hproc. }
    destruct (decide (k = vid)) as [->|Hne].
    + assert (H1 : agg_nsamples (infrs w1) !! vid
                   = Some (if processed variable w then S n else n)).
      { rewrite Hcount. destruct (processed variable w); [|exact Hn].
        now rewrite list_lookup_alter_eq, Hn. }
      rewrite (IH _ _ Hrest _ _ H1), Hinc. f_equal.
      unfold sweep_increment. rewrite Hv.
      rewrite (bool_decide_eq_false_2 _ Hnotin).
      rewrite bool_decide_eq_true_2 by apply list_elem_of_here.
      simpl. destruct (processed variable w); lia.
    + assert (H1 : agg_nsamples (infrs w1) !! k = Some n).
      { rewrite Hcount. destruct (processed variable w); [|exact Hn].
        rewrite list_lookup_alter_ne by congruence. exact Hn. }
      rewrite (IH _ _ Hrest _ _ H1), Hinc. f_equal. f_equal.
      unfold sweep_increment. destruct (variables fg !! k); [|reflexivity].
      destruct (decide (k ∈ rest)) as [Hin|Hnin].
      * rewrite !bool_decide_eq_true_2; [reflexivity| |exact Hin].
        now apply list_elem_of_further.
      * rewrite !bool_decide_eq_false_2; [reflexivity| |exact Hnin].
        intros Hc. apply elem_of_cons in Hc as [Hc|Hc]; contradiction.
Qed.

(** An inference step on a variable that is skipped, or that is boolean,
    returns: no assertion and no [abort] is on its path. *)
Lemma sample_single_variable_returns vid variable w :
  variables fg !! vid = Some variable ->
  (processed variable w = true -> domain_type variable = DTYPE_BOOLEAN) ->
  exists w', sample_single_variable vid w = Ok tt w'.
Proof.
  intros Hv Hty. rewrite (sample_single_variable_eq _ _ _ Hv).
  unfold processed in Hty.
  destruct (is_observation variable); [eauto|].
  destruct (negb (is_evid variable) || sample_evidence w); [|eauto].
  specialize (Hty eq_refl).
  rewrite draw_sample_boolean by exact Hty. rewrite Hty. eauto.
Qed.

(** A run of the inference step over ids whose processed variables are
    all boolean returns. *)
Lemma sweep_returns vids w :
  (forall vid, vid ∈ vids ->
     exists variable,
       variables fg !! vid = Some variable
       /\ (processed variable w = true ->
           domain_type variable = DTYPE_BOOLEAN)) ->
  exists w', for_each sample_single_variable vids w = Ok tt w'.
Proof.
  revert w. induction vids as [|vid rest IH]; intros w Hall; simpl.
  - exists w. reflexivity.
  - destruct (Hall vid (list_elem_of_here _ _)) as (variable & Hv & Hty).
    destruct (sample_single_variable_returns vid variable w Hv Hty)
      as (w1 & Hstep).
    pose proof (sample_single_variable_counter vid w w1 Hstep)
      as (_ & _ & Hse & _).
    destruct (IH w1) as (w' & Hrest).
    { intros v Hin.
      destruct (Hall v (list_elem_of_further _ _ _ Hin)) as (u & Hu & Hb).
      exists u. split; [exact Hu|].
      unfold processed in *. now rewrite Hse. }
    exists w'. now rewrite (bind_Ok _ _ _ _ _ Hstep).
Qed.

(** C8. No call of the worker lowers an aggregate: after any sequence of
    inference and SGD steps every sample counter, mean accumulator and
    tally slot is at least what it was, and a draw on its own leaves them
    all as they were.  A run of the inference step over ids that occur
    once each (a sweep over a shard is one) moves the sample counter of
    an id by exactly 1 when the id is in the run and its variable is
    processed, and by 0 otherwise: this holds of every run that returns,
    and a run whose processed variables are all boolean does return, and
    so moves the counters in this way.  The SGD step leaves every
    aggregate as it was.  The weight update is taken to touch weights
    only, and every variable to sit at the index that is its id. *)
Theorem aggregates_monotone :
  update_weight_frame ->
  ids_are_indices ->
  (forall steps w,
      agg_le (infrs w) (infrs (final_state (run_steps steps w))))
  /\ (forall variable assignments weights w,
        agg_eq (infrs (final_state (draw_sample variable assignments weights w)))
               (infrs w))
  /\ (forall vids w w',
        NoDup vids ->
        for_each sample_single_variable vids w = Ok tt w' ->
        forall k n,
          agg_nsamples (infrs w) !! k = Some n ->
          agg_nsamples (infrs w') !! k = Some (n + sweep_increment vids w k))
  /\ (forall vids w,
        NoDup vids ->
        (forall vid, vid ∈ vids ->
           exists variable,
             variables fg !! vid = Some variable
             /\ (processed variable w = true ->
                 domain_type variable = DTYPE_BOOLEAN)) ->
        exists w',
          for_each sample_single_variable vids w = Ok tt w'
          /\ forall k n,
               agg_nsamples (infrs w) !! k = Some n ->
               agg_nsamples (infrs w') !! k
               = Some (n + sweep_increment vids w k))
  /\ (forall vid stepsize w,
        agg_eq (infrs (final_state (sample_sgd_single_variable vid stepsize w)))
               (infrs w)).
Proof.
  intros Hu Hids. split; [|split; [|split; [|split]]].
  - intros steps w. now apply run_steps_agg_le.
  - intros variable assignments weights w.
    rewrite draw_sample_infrs. now repeat split.
  - intros vids w w' Hnd Hrun. now apply sweep_counters.
  - intros vids w Hnd Hall.
    destruct (sweep_returns vids w Hall) as (w' & Hrun).
    exists w'. split; [exact Hrun|].
    now apply (sweep_counters vids Hids Hnd w w' Hrun).
  - intros vid stepsize w. now apply sample_sgd_single_variable_agg_eq.
Qed.

(** The sweep of section 4.2, as an instance. *)
Lemma sample_counters w w' :
  ids_are_indices ->
  sample w = Ok tt w' ->
  forall k n,
    agg_nsamples (infrs w) !! k = Some n ->
    agg_nsamples (infrs w') !! k = Some (n + sweep_increment (shard w) w k).
Proof.
  intros Hids Hrun. eapply sweep_counters; [exact Hids|apply NoDup_seq|exact Hrun].
Qed.

(** ** The multinomial draw: what it returns, and the scratch buffer *)

(** X7. A multinomial draw that returns, returns a value of the declared
    domain: a key of the sparse map, or an index below the cardinality. *)
Lemma draw_sample_multinomial_member variable assignments weights w v w' :
  domain_type variable = DTYPE_MULTINOMIAL ->
  draw_sample variable assignments weights w = Ok v w' ->
  v <> INVALID_VALUE
  /\ match domain_map variable with
     | Some entries => v ∈ entries.*1
     | None => (0 <= v < Z.of_nat (cardinality variable))%Z
     end.
Proof.
  intros Hty H.
  apply draw_sample_multinomial_Ok in H as [Hne Hin]; [|exact Hty].
  split; [exact Hne|].
  unfold domain_entries in Hin.
  destruct (domain_map variable) as [entries|]; [exact Hin|].
  apply list_elem_of_fmap in Hin as ([v' i] & -> & Hin).
  apply list_elem_of_fmap in Hin as (j & E & Hj).
  injection E as -> ->. simpl.
  apply elem_of_seq in Hj. lia.
Qed.

(** [reserve] raises the capacity and never the size: after a draw the
    cells of every domain index hold storage, while [size()] is what it
    was before the draw. *)
Lemma draw_sample_buffer_size variable assignments weights w :
  domain_type variable = DTYPE_MULTINOMIAL ->
  wf_domain variable ->
  vec_wf (varlen_potential_buffer_ w) ->
  let b' := varlen_potential_buffer_
              (final_state (draw_sample variable assignments weights w)) in
  vec_size b' = vec_size (varlen_potential_buffer_ w)
  /\ cardinality variable <= vec_capacity b'
  /\ vec_data b'
     = stored_cells variable assignments weights (domain_entries variable)
         (vec_data (vec_reserve (cardinality variable)
                      (varlen_potential_buffer_ w))).
Proof.
  intros Hty Hdom Hwf.
  rewrite draw_sample_multinomial by assumption.
  match goal with
  | |- context [match ?d with inl _ => _ | inr _ => _ end] => destruct d as [p|f]
  end; [destruct (p =? INVALID_VALUE)%Z|]; simpl;
    (split; [apply vec_reserve_size|split; [|reflexivity]]);
    unfold vec_capacity; simpl; rewrite stored_cells_length;
    now apply vec_reserve_capacity.
Qed.

(** ** Why a draw can go unselected

    The running sum starts at -100000 and not at log(0), so in exact
    arithmetic the probabilities of the domain values add up to
    1 - exp(-100000 - sum), short of 1; a draw r above that is left
    positive by the second loop. *)

Lemma exp_minus_div p s : exp (p - s) = (exp p / exp s)%R.
Proof. unfold Rminus, Rdiv. now rewrite exp_plus, exp_Ropp. Qed.

Lemma total_mass_shift variable assignments weights entries s t :
  (exp s * total_mass variable assignments weights entries s
   = exp t * total_mass variable assignments weights entries t)%R.
Proof.
  induction entries as [|[value index] rest IH]; simpl; [lra|].
  rewrite !Rmult_plus_distr_l, IH, !exp_minus_div.
  pose proof (exp_pos s). pose proof (exp_pos t).
  field. split; lra.
Qed.

Lemma exp_log_sum variable assignments weights entries s :
  exp (log_sum variable assignments weights entries s)
  = (exp s + exp s * total_mass variable assignments weights entries s)%R.
Proof.
  revert s.
  induction entries as [|[value index] rest IH]; intros s; simpl.
  - lra.
  - rewrite IH.
    set (p := potential variable value assignments weights).
    rewrite (total_mass_shift _ _ _ rest (logadd s p) s).
    pose proof (exp_pos s) as Hs. pose proof (exp_pos p) as Hp.
    unfold logadd. rewrite exp_ln by lra.
    rewrite exp_minus_div. field. lra.
Qed.

Lemma total_mass_deficit variable assignments weights entries :
  let sum := log_sum variable assignments weights entries (-100000)%R in
  total_mass variable assignments weights entries sum
  = (1 - exp (-100000 - sum))%R
  /\ (total_mass variable assignments weights entries sum < 1)%R.
Proof.
  intros sum.
  pose proof (total_mass_shift variable assignments weights entries
                (-100000)%R sum) as Hshift.
  pose proof (exp_log_sum variable assignments weights entries (-100000)%R) as H.
  fold sum in H. rewrite Hshift in H.
  pose proof (exp_pos sum) as Hsum. pose proof (exp_pos (-100000)) as Hseed.
  assert (E : (total_mass variable assignments weights entries sum
               = 1 - exp (-100000) / exp sum)%R).
  { apply (Rmult_eq_reg_l (exp sum)); [|lra]. field_simplify; lra. }
  split.
  - rewrite E. now rewrite exp_minus_div.
  - rewrite E. assert (0 < exp (-100000) / exp sum)%R
      by (apply Rdiv_lt_0_compat; lra).
    lra.
Qed.

(** The second loop leaves [r] positive when [r] exceeds the mass of the
    entries it runs through, reading the potentials from the cells. *)
Lemma never_selected_above_mass variable assignments weights cells entries sum r :
  Forall (fun e : Z * nat =>
            cells !! e.2 = Some (potential variable e.1 assignments weights))
         entries ->
  (total_mass variable assignments weights entries sum < r)%R ->
  never_selected cells entries sum r.
Proof.
  intros Hcells. revert r.
  induction Hcells as [|[value index] rest Hcell _ IH]; intros r Hr; simpl.
  - exact I.
  - simpl in Hcell, Hr.
    assert (Hrest : (0 <= total_mass variable assignments weights rest sum)%R).
    { clear. induction rest as [|[v i] rest IH]; simpl; [lra|].
      pose proof (exp_pos (potential variable v assignments weights - sum)).
      lra. }
    eexists. split; [exact Hcell|]. split; [lra|].
    apply IH. lra.
Qed.

(** After the first loop over a dense domain, cell [i] holds the potential
    of the value [i]. *)
Lemma stored_cells_dense variable assignments weights n m cells :
  n + m <= length cells ->
  Forall (fun e : Z * nat =>
            stored_cells variable assignments weights
              (map (fun i : nat => (Z.of_nat i, i)) (seq n m)) cells !! e.2
            = Some (potential variable e.1 assignments weights))
         (map (fun i : nat => (Z.of_nat i, i)) (seq n m)).
Proof.
  revert n cells.
  induction m as [|m IH]; intros n cells Hlen; simpl; [constructor|].
  constructor.
  - simpl.
    assert (Hkeep : forall k l c,
               n < k ->
               stored_cells variable assignments weights
                 (map (fun i : nat => (Z.of_nat i, i)) (seq k l)) c !! n
               = c !! n).
    { intros k l. revert k. induction l as [|l IHl]; intros k c Hk; simpl;
        [reflexivity|].
      rewrite IHl by lia. apply list_lookup_insert_ne. lia. }
    rewrite Hkeep by lia. apply list_lookup_insert_eq. lia.
  - apply IH. rewrite length_insert. lia.
Qed.

(** X5. On a dense multinomial variable, a draw above the mass of the domain
    halts on the assertion, whatever the potentials are. *)
Lemma draw_sample_above_mass variable assignments weights w :
  domain_type variable = DTYPE_MULTINOMIAL ->
  domain_map variable = None ->
  vec_wf (varlen_potential_buffer_ w) ->
  let sum := log_sum variable assignments weights (domain_entries variable)
               (-100000)%R in
  (1 - exp (-100000 - sum) < fst (erand48 (p_rand_seed w)))%R ->
  drawn (draw_sample variable assignments weights w) = inr AssertionFailed.
Proof.
  intros Hty Hdense Hwf sum Hr.
  assert (Hdom : wf_domain variable).
  { unfold wf_domain, domain_entries. rewrite Hdense.
    apply Forall_forall. intros [v i] Hin.
    apply list_elem_of_fmap in Hin as (j & E & Hj). injection E as -> ->.
    apply elem_of_seq in Hj. simpl. lia. }
  rewrite draw_sample_multinomial by assumption. fold sum.
  rewrite select_proposal_unselected.
  - simpl. now rewrite Z.eqb_refl.
  - simpl varlen_potential_buffer_. simpl vec_data.
    apply (never_selected_above_mass variable assignments weights).
    + unfold domain_entries. rewrite Hdense.
      apply stored_cells_dense.
      pose proof (vec_reserve_capacity (cardinality variable) _ Hwf) as Hcap.
      unfold vec_capacity in Hcap. lia.
    + destruct (total_mass_deficit variable assignments weights
                  (domain_entries variable)) as [E _].
      fold sum in E. rewrite E. exact Hr.
Qed.

(** ** The sweeps and the reseed *)

Lemma for_each_run_steps vids w :
  for_each sample_single_variable vids w = run_steps (map Sample vids) w.
Proof.
  revert w. induction vids as [|vid rest IH]; intros w; simpl; [reflexivity|].
  unfold bind. destruct (sample_single_variable vid w); [apply IH|reflexivity].
Qed.

(** The inference sweep never lowers an aggregate, and the SGD sweep
    leaves them all as they were. *)
Lemma sample_agg_le w :
  update_weight_frame ->
  agg_le (infrs w) (infrs (final_state (sample w))).
Proof.
  intros Hu. unfold sample. rewrite for_each_run_steps.
  now apply run_steps_agg_le.
Qed.

Lemma for_each_preserves {X} (f : GibbsSamplerThread -> X)
    (body : nat -> Worker unit) vids :
  (forall vid, preserves f (body vid)) -> preserves f (for_each body vids).
Proof.
  intros Hbody. induction vids as [|vid rest IH]; simpl.
  - apply preserves_ret.
  - apply preserves_bind; [apply Hbody|intros _; exact IH].
Qed.

Lemma sample_sgd_agg_eq stepsize w :
  update_weight_frame ->
  agg_eq (infrs (final_state (sample_sgd stepsize w))) (infrs w).
Proof.
  intros Hu. unfold sample_sgd.
  pose proof (for_each_preserves
                (fun w => (agg_nsamples (infrs w), agg_means (infrs w),
                           multinomial_tallies (infrs w)))
                (fun vid => sample_sgd_single_variable vid stepsize)
                (shard w)) as H.
  assert (E : (agg_nsamples (infrs (final_state
                 (for_each (fun vid => sample_sgd_single_variable vid stepsize)
                    (shard w) w))),
               agg_means (infrs (final_state
                 (for_each (fun vid => sample_sgd_single_variable vid stepsize)
                    (shard w) w))),
               multinomial_tallies (infrs (final_state
                 (for_each (fun vid => sample_sgd_single_variable vid stepsize)
                    (shard w) w))))
              = (agg_nsamples (infrs w), agg_means (infrs w),
                 multinomial_tallies (infrs w))).
  { apply H. intros vid w0.
    destruct (sample_sgd_single_variable_agg_eq vid stepsize w0 Hu)
      as (-> & -> & ->).
    reflexivity. }
  injection E as E1 E2 E3. now repeat split.
Qed.

(** Reseeding two workers with the same triple makes their seeds equal and
    touches nothing else. *)
Lemma set_random_seed_similar s0 s1 s2 w1 w2 :
  start w1 = start w2 -> end_ w1 = end_ w2 -> infrs w1 = infrs w2 ->
  sample_evidence w1 = sample_evidence w2 ->
  learn_non_evidence w1 = learn_non_evidence w2 ->
  vec_wf (varlen_potential_buffer_ w1) ->
  vec_wf (varlen_potential_buffer_ w2) ->
  similar (final_state (set_random_seed s0 s1 s2 w1))
          (final_state (set_random_seed s0 s1 s2 w2)).
Proof. intros. unfold similar. simpl. repeat split; assumption. Qed.

(** ** How a draw can halt *)

Lemma compute_potentials_Halt variable assignments weights entries sum w f w' :
  compute_potentials variable assignments weights entries sum w = Halt f w' ->
  f = OutOfStorage.
Proof.
  revert sum w.
  induction entries as [|[value index] rest IH]; intros sum w; simpl.
  - discriminate.
  - unfold bind at 1. unfold buffer_store.
    destruct (_ <? _)%nat; [|intros H; now injection H as <- _].
    unfold bind at 1. unfold buffer_load.
    destruct (_ !! _); [apply IH|intros H; now injection H as <- _].
Qed.

Lemma select_proposal_Halt entries sum r proposal w f w' :
  select_proposal entries sum r proposal w = Halt f w' -> f = OutOfStorage.
Proof.
  revert r.
  induction entries as [|[value index] rest IH]; intros r; simpl.
  - discriminate.
  - unfold bind, buffer_load.
    destruct (_ !! _); [|intros H; now injection H as <- _].
    destruct (Rle_dec _ _); [discriminate|apply IH].
Qed.

(** [abort()] is reached on an unsupported domain type only, and then
    before anything has changed; a multinomial draw halts on its assertion
    or on an index outside the reserved storage; a boolean draw returns. *)
Lemma draw_sample_Halt_kind variable assignments weights w f w' :
  draw_sample variable assignments weights w = Halt f w' ->
  (domain_type variable = DTYPE_OTHER /\ f = AbortCalled /\ w' = w)
  \/ (domain_type variable = DTYPE_MULTINOMIAL
      /\ (f = AssertionFailed \/ f = OutOfStorage)).
Proof.
  destruct (domain_type variable) eqn:Hty.
  - rewrite draw_sample_boolean by exact Hty. discriminate.
  - intros H. right. split; [reflexivity|].
    unfold draw_sample in H. rewrite Hty in H.
    apply bind_Halt_inv in H as [H|([] & w1 & _ & H)]; [discriminate|].
    apply bind_Halt_inv in H as [H|(sum & w2 & _ & H)].
    { right. now apply compute_potentials_Halt in H. }
    apply bind_Halt_inv in H as [H|(r & w3 & _ & H)].
    { rewrite erand48_p_rand_seed_eq in H. discriminate. }
    apply bind_Halt_inv in H as [H|(p & w4 & _ & H)].
    { right. now apply select_proposal_Halt in H. }
    apply bind_Halt_inv in H as [H|([] & w5 & _ & H)]; [|discriminate].
    left. unfold assert in H. destruct (negb _); [discriminate|].
    now injection H as <- _.
  - rewrite draw_sample_other by exact Hty.
    intros H. injection H as <- <-. left. now repeat split.
Qed.

(** X1. The [default: abort()] of the switch in [sample_single_variable] is
    never reached: a step that aborts does so inside [draw_sample], for a
    variable of unsupported type, with nothing written.  In the SGD step
    an evidence variable of unsupported type has its pinned value stored
    before the free pass aborts. *)
Theorem abort_comes_from_the_draw vid :
  (forall w w',
      sample_single_variable vid w = Halt AbortCalled w' ->
      w' = w
      /\ exists variable,
           variables fg !! vid = Some variable
           /\ domain_type variable = DTYPE_OTHER)
  /\ (forall stepsize w w',
        sample_sgd_single_variable vid stepsize w = Halt AbortCalled w' ->
        exists variable,
          variables fg !! vid = Some variable
          /\ domain_type variable = DTYPE_OTHER
          /\ w' = if is_evid variable
                  then with_infrs (store_assignments_evid (id variable)
                                     (assignment_evid variable) (infrs w)) w
                  else w).
Proof.
  split.
  - intros w w' H.
    destruct (variables fg !! vid) as [variable|] eqn:Hv.
    2:{ unfold sample_single_variable in H.
        rewrite (bind_Halt _ _ _ _ _ (fg_variable_None vid w Hv)) in H.
        discriminate. }
    rewrite (sample_single_variable_eq _ _ _ Hv) in H.
    destruct (is_observation variable); [discriminate|].
    destruct (negb (is_evid variable) || sample_evidence w); [|discriminate].
    destruct (draw_sample _ _ _ w) as [proposal w1|f w1] eqn:Hd.
    + destruct (domain_type variable) eqn:Hty; try discriminate.
      rewrite draw_sample_other in Hd by exact Hty. discriminate.
    + injection H as -> ->.
      apply draw_sample_Halt_kind in Hd
        as [(Hty & _ & ->)|(_ & [Hf|Hf])]; try discriminate.
      split; [reflexivity|]. now exists variable.
  - intros stepsize w w' H.
    destruct (variables fg !! vid) as [variable|] eqn:Hv.
    2:{ unfold sample_sgd_single_variable in H.
        rewrite (bind_Halt _ _ _ _ _ (fg_variable_None vid w Hv)) in H.
        discriminate. }
    exists variable. split; [reflexivity|].
    rewrite (sample_sgd_single_variable_eq _ _ _ _ Hv) in H.
    destruct (is_observation variable); [discriminate|].
    destruct (negb (learn_non_evidence w) && negb (is_evid variable));
      [discriminate|].
    assert (Hfree : forall w0,
               sgd_free_pass variable stepsize w0 = Halt AbortCalled w' ->
               domain_type variable = DTYPE_OTHER /\ w' = w0).
    { intros w0 H0. rewrite sgd_free_pass_eq in H0.
      destruct (draw_sample _ _ _ w0) as [p w2|f w2] eqn:Hd; [discriminate|].
      injection H0 as -> ->.
      apply draw_sample_Halt_kind in Hd
        as [(Hty & _ & ->)|(_ & [Hf|Hf])]; try discriminate.
      now split. }
    destruct (is_evid variable).
    + apply Hfree in H as [Hty ->]. now split.
    + destruct (draw_sample _ _ _ w) as [proposal w1|f w1] eqn:Hd.
      * apply Hfree in H as [Hty _].
        rewrite draw_sample_other in Hd by exact Hty. discriminate.
      * injection H as -> ->.
        apply draw_sample_Halt_kind in Hd
          as [(Hty & _ & ->)|(_ & [Hf|Hf])]; try discriminate.
        now split.
Qed.

(** X2. A boolean variable is always drawn for: neither step halts on it. *)
Theorem boolean_steps_return vid variable stepsize w :
  variables fg !! vid = Some variable ->
  domain_type variable = DTYPE_BOOLEAN ->
  (exists w', sample_single_variable vid w = Ok tt w')
  /\ (exists w', sample_sgd_single_variable vid stepsize w = Ok tt w').
Proof.
  intros Hv Hty. split.
  - rewrite (sample_single_variable_eq _ _ _ Hv).
    destruct (is_observation variable); [eauto|].
    destruct (negb (is_evid variable) || sample_evidence w); [|eauto].
    rewrite draw_sample_boolean by exact Hty. rewrite Hty. eauto.
  - rewrite (sample_sgd_single_variable_eq _ _ _ _ Hv).
    destruct (is_observation variable); [eauto|].
    destruct (negb (learn_non_evidence w) && negb (is_evid variable)); [eauto|].
    destruct (is_evid variable).
    + rewrite sgd_free_pass_eq, draw_sample_boolean by exact Hty. eauto.
    + rewrite draw_sample_boolean by exact Hty.
      rewrite sgd_free_pass_eq, draw_sample_boolean by exact Hty. eauto.
Qed.

(** ** The scratch buffer across a draw *)

Lemma buffer_store_shape i x w :
  let b' := varlen_potential_buffer_ (final_state (buffer_store i x w)) in
  vec_size b' = vec_size (varlen_potential_buffer_ w)
  /\ vec_capacity b' = vec_capacity (varlen_potential_buffer_ w).
Proof.
  unfold buffer_store. destruct (_ <? _)%nat; simpl; [|now split].
  unfold vec_capacity. simpl. now rewrite length_insert.
Qed.

Lemma compute_potentials_shape variable assignments weights entries sum :
  preserves (fun w => (vec_size (varlen_potential_buffer_ w),
                       vec_capacity (varlen_potential_buffer_ w)))
    (compute_potentials variable assignments weights entries sum).
Proof.
  revert sum.
  induction entries as [|[value index] rest IH]; intros sum; simpl.
  - apply preserves_ret.
  - apply preserves_bind.
    + intros w. destruct (buffer_store_shape index
                            (potential variable value assignments weights) w)
        as [-> ->]. reflexivity.
    + intros _. apply preserves_bind; [apply buffer_load_keeps|intros p].
      apply IH.
Qed.

(** X6. Across any draw the buffer keeps its size and never loses capacity;
    after a multinomial draw the capacity covers the cardinality, and a
    buffer that already covered it is not reallocated; any other draw
    leaves the buffer as it is. *)
Theorem draw_sample_buffer_shape variable assignments weights w :
  vec_wf (varlen_potential_buffer_ w) ->
  let b := varlen_potential_buffer_ w in
  let b' := varlen_potential_buffer_
              (final_state (draw_sample variable assignments weights w)) in
  vec_wf b'
  /\ vec_size b' = vec_size b
  /\ vec_capacity b <= vec_capacity b'
  /\ (domain_type variable = DTYPE_MULTINOMIAL ->
      cardinality variable <= vec_capacity b')
  /\ (cardinality variable <= vec_capacity b ->
      vec_capacity b' = vec_capacity b)
  /\ (domain_type variable <> DTYPE_MULTINOMIAL -> b' = b).
Proof.
  intros Hwf b b'. subst b'.
  destruct (domain_type variable) eqn:Hty.
  - rewrite draw_sample_boolean by exact Hty. simpl.
    repeat split; auto; discriminate.
  - assert (Hres : vec_capacity (vec_reserve (cardinality variable) b)
                   = Nat.max (vec_capacity b) (cardinality variable)).
    { unfold vec_reserve.
      destruct (cardinality variable <=? vec_capacity b)%nat eqn:E; cbv iota.
      - apply Nat.leb_le in E. lia.
      - apply Nat.leb_gt in E. unfold vec_wf, vec_capacity in *.
        cbn [vec_data].
        rewrite length_app, length_take, length_map, length_seq.
        fold b in Hwf. lia. }
    assert (Hshape :
              (vec_size (varlen_potential_buffer_
                 (final_state (draw_sample variable assignments weights w))),
               vec_capacity (varlen_potential_buffer_
                 (final_state (draw_sample variable assignments weights w))))
              = (vec_size b,
                 Nat.max (vec_capacity b) (cardinality variable))).
    { unfold draw_sample. rewrite Hty.
      rewrite final_state_bind. simpl.
      assert (Hrest : preserves
                (fun w => (vec_size (varlen_potential_buffer_ w),
                           vec_capacity (varlen_potential_buffer_ w)))
                (sum <- compute_potentials variable assignments weights
                          (domain_entries variable) (-100000)%R ;;
                 r <- erand48_p_rand_seed ;;
                 proposal <- select_proposal (domain_entries variable) sum r
                               INVALID_VALUE ;;
                 assert (negb (proposal =? INVALID_VALUE)%Z) ;;;
                 ret proposal)).
      { apply preserves_bind; [apply compute_potentials_shape|intros sum].
        apply preserves_bind; [now apply erand48_keeps|intros r].
        apply preserves_bind; [apply select_proposal_keeps|intros p].
        apply preserves_bind; [apply preserves_assert|intros _].
        apply preserves_ret. }
      rewrite Hrest. simpl. fold b. now rewrite vec_reserve_size, Hres. }
    injection Hshape as Hs Hc.
    unfold vec_wf in *. fold b in Hwf. rewrite Hs, Hc.
    repeat split; try lia. congruence.
  - rewrite draw_sample_other by exact Hty. simpl.
    repeat split; auto; discriminate.
Qed.

(** ** The empty domain *)

(** X8. With no domain value to iterate over (cardinality 0, or an empty
    map), both loops are skipped: the draw consumes one random number and
    halts on the assertion, and the inference step halts with it before
    writing anything. *)
Theorem empty_domain_halts vid variable w :
  variables fg !! vid = Some variable ->
  domain_type variable = DTYPE_MULTINOMIAL ->
  domain_entries variable = [] ->
  (forall assignments weights,
      draw_sample variable assignments weights w
      = Halt AssertionFailed
          (with_seed (next_seed (p_rand_seed w))
             (with_buffer (vec_reserve (cardinality variable)
                             (varlen_potential_buffer_ w)) w)))
  /\ (processed variable w = true ->
      drawn (sample_single_variable vid w) = inr AssertionFailed
      /\ infrs (final_state (sample_single_variable vid w)) = infrs w).
Proof.
  intros Hv Hty Hempty.
  assert (Hd : forall assignments weights,
             draw_sample variable assignments weights w
             = Halt AssertionFailed
                 (with_seed (next_seed (p_rand_seed w))
                    (with_buffer (vec_reserve (cardinality variable)
                                    (varlen_potential_buffer_ w)) w))).
  { intros assignments weights. unfold draw_sample.
    rewrite Hty, Hempty. simpl.
    unfold bind at 1. unfold buffer_reserve.
    unfold bind at 1. unfold ret at 1.
    unfold bind at 1. rewrite erand48_p_rand_seed_eq.
    unfold bind at 1. unfold ret at 1.
    unfold bind at 1. unfold assert. now rewrite Z.eqb_refl. }
  split; [exact Hd|].
  intros Hp. unfold processed in Hp.
  apply andb_true_iff in Hp as [Hobs Hgate].
  apply negb_true_iff in Hobs.
  rewrite (sample_single_variable_eq _ _ _ Hv), Hobs, Hgate, Hd.
  now split.
Qed.

(** ** Which value a multinomial draw selects *)

Lemma total_mass_nonneg variable assignments weights entries sum :
  (0 <= total_mass variable assignments weights entries sum)%R.
Proof.
  induction entries as [|[v i] rest IH]; simpl; [lra|].
  pose proof (exp_pos (potential variable v assignments weights - sum)). lra.
Qed.

Lemma total_mass_app variable assignments weights l1 l2 sum :
  total_mass variable assignments weights (l1 ++ l2) sum
  = (total_mass variable assignments weights l1 sum
     + total_mass variable assignments weights l2 sum)%R.
Proof.
  induction l1 as [|[v i] rest IH]; simpl; [lra|]. rewrite IH. lra.
Qed.

Lemma stored_cells_keep variable assignments weights entries cells index :
  index ∉ entries.*2 ->
  stored_cells variable assignments weights entries cells !! index
  = cells !! index.
Proof.
  revert cells.
  induction entries as [|[v i] rest IH]; intros cells Hnot; simpl;
    [reflexivity|].
  simpl in Hnot. apply not_elem_of_cons in Hnot as [Hne Hnot].
  rewrite IH by exact Hnot. apply list_lookup_insert_ne. congruence.
Qed.

(** When no two domain values share an index, the first loop leaves in
    each value's cell the potential of that value. *)
Lemma stored_cells_nodup variable assignments weights entries cells :
  NoDup entries.*2 ->
  Forall (fun e : Z * nat => e.2 < length cells) entries ->
  Forall (fun e : Z * nat =>
            stored_cells variable assignments weights entries cells !! e.2
            = Some (potential variable e.1 assignments weights))
         entries.
Proof.
  revert cells.
  induction entries as [|[v i] rest IH]; intros cells Hnd Hlen; simpl;
    [constructor|].
  simpl in Hnd. apply NoDup_cons in Hnd as [Hnot Hnd].
  inversion Hlen as [|? ? Hi Hrest]; subst. simpl in Hi.
  constructor.
  - simpl. rewrite stored_cells_keep by exact Hnot.
    now apply list_lookup_insert_eq.
  - apply IH; [exact Hnd|].
    eapply Forall_impl; [exact Hrest|]. intros e He.
    now rewrite length_insert.
Qed.

(** The second loop returns the first value at which the running total of
    the probabilities reaches [r]. *)
Lemma select_proposal_first variable assignments weights
    pre value index post sum r proposal w :
  Forall (fun e : Z * nat =>
            vec_data (varlen_potential_buffer_ w) !! e.2
            = Some (potential variable e.1 assignments weights))
         (pre ++ (value, index) :: post) ->
  pre = [] \/ (total_mass variable assignments weights pre sum < r)%R ->
  (r <= total_mass variable assignments weights (pre ++ [(value, index)]) sum)%R ->
  select_proposal (pre ++ (value, index) :: post) sum r proposal w
  = Ok value w.
Proof.
  revert r.
  induction pre as [|[v0 i0] pre IH]; intros r Hcells Hlow Hhigh; simpl in *.
  - inversion Hcells as [|? ? Hc _]; subst. simpl in Hc.
    unfold bind, buffer_load. rewrite Hc.
    destruct (Rle_dec _ _) as [_|Hn]; [reflexivity|]. exfalso. lra.
  - inversion Hcells as [|? ? Hc Hrest]; subst. simpl in Hc.
    destruct Hlow as [Hlow|Hlow]; [discriminate|].
    pose proof (total_mass_nonneg variable assignments weights pre sum) as H0.
    unfold bind, buffer_load. rewrite Hc.
    destruct (Rle_dec _ _) as [Hle|_]; [exfalso; lra|].
    apply IH; [exact Hrest|right; lra|lra].
Qed.

(** X4. The multinomial draw as inverse-transform sampling: it returns the
    first domain value, in iteration order, at which the running total of
    the normalised probabilities reaches r, and halts on the assertion
    when that value is [INVALID_VALUE] or when r exceeds the total of all
    of them. *)
Theorem draw_sample_inverse_cdf variable assignments weights w :
  domain_type variable = DTYPE_MULTINOMIAL ->
  wf_domain variable ->
  NoDup (domain_entries variable).*2 ->
  vec_wf (varlen_potential_buffer_ w) ->
  let sum := log_sum variable assignments weights (domain_entries variable)
               (-100000)%R in
  let r := fst (erand48 (p_rand_seed w)) in
  (forall pre value index post,
      domain_entries variable = pre ++ (value, index) :: post ->
      pre = [] \/ (total_mass variable assignments weights pre sum < r)%R ->
      (r <= total_mass variable assignments weights
              (pre ++ [(value, index)]) sum)%R ->
      drawn (draw_sample variable assignments weights w)
      = if (value =? INVALID_VALUE)%Z then inr AssertionFailed else inl value)
  /\ ((total_mass variable assignments weights (domain_entries variable) sum
       < r)%R ->
      drawn (draw_sample variable assignments weights w) = inr AssertionFailed).
Proof.
  intros Hty Hdom Hnd Hwf sum r.
  assert (Hcells :
            Forall (fun e : Z * nat =>
                      stored_cells variable assignments weights
                        (domain_entries variable)
                        (vec_data (vec_reserve (cardinality variable)
                                     (varlen_potential_buffer_ w))) !! e.2
                      = Some (potential variable e.1 assignments weights))
                   (domain_entries variable)).
  { apply stored_cells_nodup; [exact Hnd|].
    eapply Forall_impl; [exact Hdom|]. intros e He. simpl in He.
    pose proof (vec_reserve_capacity (cardinality variable) _ Hwf) as Hcap.
    unfold vec_capacity in Hcap. lia. }
  rewrite draw_sample_multinomial by assumption. fold sum r.
  split.
  - intros pre value index post Hsplit Hlow Hhigh.
    rewrite Hsplit.
    rewrite (select_proposal_first variable assignments weights);
      [ |rewrite <- Hsplit; exact Hcells|exact Hlow|exact Hhigh].
    simpl. now destruct (value =? INVALID_VALUE)%Z.
  - intros Hr.
    rewrite select_proposal_unselected.
    + simpl. now rewrite Z.eqb_refl.
    + now apply (never_selected_above_mass variable assignments weights).
Qed.

(** ** The SGD step as a whole *)



(** ** What inference never touches, and where a run writes *)

Lemma for_each_preserves_in {X} (f : GibbsSamplerThread -> X)
    (body : nat -> Worker unit) vids :
  (forall vid, vid ∈ vids -> preserves f (body vid)) ->
  preserves f (for_each body vids).
Proof.
  induction vids as [|vid rest IH]; intros Hbody; simpl.
  - apply preserves_ret.
  - apply preserves_bind.
    + apply Hbody, list_elem_of_here.
    + intros _. apply IH. intros v Hv. now apply Hbody, list_elem_of_further.
Qed.

(** X10. Inference leaves the state of learning alone and resizes nothing: any
    run of the inference step, returning or halting, leaves the free
    assignment vector and the weights as they were and every array of the
    inference state at its length. *)
Theorem inference_keeps_learning_state vids w :
  let i' := infrs (final_state (for_each sample_single_variable vids w)) in
  assignments_free i' = assignments_free (infrs w)
  /\ weight_values i' = weight_values (infrs w)
  /\ array_lengths i' = array_lengths (infrs w).
Proof.
  pose proof (for_each_preserves
                (fun w => (assignments_free (infrs w), weight_values (infrs w),
                           array_lengths (infrs w)))
                sample_single_variable vids) as H.
  assert (E : (assignments_free
                 (infrs (final_state (for_each sample_single_variable vids w))),
               weight_values
                 (infrs (final_state (for_each sample_single_variable vids w))),
               array_lengths
                 (infrs (final_state (for_each sample_single_variable vids w))))
              = (assignments_free (infrs w), weight_values (infrs w),
                 array_lengths (infrs w))).
  { apply H. intros vid.
    apply (sample_single_variable_keeps_infrs
             (fun i => (assignments_free i, weight_values i, array_lengths i))).
    intros variable _ _ i.
    unfold array_lengths, store_assignments_evid, incr_agg_nsamples,
      add_agg_means, incr_multinomial_tallies.
    cbn [assignments_evid assignments_free weight_values agg_nsamples
           agg_means multinomial_tallies].
    repeat split; intros; now rewrite ?length_insert, ?length_alter. }
  cbv zeta. repeat split; congruence.
Qed.

(** X11. A run writes only at the ids it visits: with every variable at the
    index that is its id, a run of the inference step over [vids] leaves
    both assignment vectors, the sample counter and the mean accumulator
    of every other id as they were; so does a run of the SGD step when
    the weight update touches weights only. *)
Theorem writes_stay_on_visited_ids vids k w :
  ids_are_indices ->
  k ∉ vids ->
  slots_at k (infrs (final_state (for_each sample_single_variable vids w)))
  = slots_at k (infrs w)
  /\ (update_weight_frame ->
      forall stepsize,
        slots_at k
          (infrs (final_state
                    (for_each (fun vid => sample_sgd_single_variable vid stepsize)
                       vids w)))
        = slots_at k (infrs w)).
Proof.
  intros Hids Hk. split.
  - apply (for_each_preserves_in (fun w => slots_at k (infrs w))).
    intros vid Hvid.
    apply sample_single_variable_keeps_infrs.
    intros u Hu _ i. rewrite (Hids _ _ Hu).
    assert (Hne : vid <> k) by (intros ->; contradiction).
    destruct (slots_at_other k vid i Hne) as (E1 & E2 & E3 & E4 & E5). auto.
  - intros Hw stepsize.
    apply (for_each_preserves_in (fun w => slots_at k (infrs w))).
    intros vid Hvid.
    apply sample_sgd_single_variable_keeps_infrs.
    intros u Hu _ i. rewrite (Hids _ _ Hu).
    assert (Hne : vid <> k) by (intros ->; contradiction).
    destruct (slots_at_other k vid i Hne) as (E1 & E2 & E3 & E4 & E5).
    repeat split; auto. now apply slots_at_update_weight.
Qed.

(** ** How much randomness a run consumes *)

Lemma sample_single_variable_seed vid w w' :
  sample_single_variable vid w = Ok tt w' ->
  exists variable,
    variables fg !! vid = Some variable
    /\ sample_evidence w' = sample_evidence w
    /\ p_rand_seed w'
       = if processed variable w then next_seed (p_rand_seed w)
         else p_rand_seed w.
Proof.
  intros H.
  destruct (variables fg !! vid) as [variable|] eqn:Hv.
  - exists variable. split; [reflexivity|].
    rewrite (sample_single_variable_eq _ _ _ Hv) in H.
    unfold processed.
    destruct (is_observation variable); simpl.
    { injection H as <-. now split. }
    destruct (negb (is_evid variable) || sample_evidence w); simpl.
    2:{ injection H as <-. now split. }
    revert H.
    destruct (draw_sample variable (assignments_evid (infrs w))
                (weight_values (infrs w)) w) as [proposal w1|f w1] eqn:Hd;
      [|intros H; discriminate].
    intros H.
    pose proof (draw_sample_keeps sample_evidence variable
                  (assignments_evid (infrs w)) (weight_values (infrs w))
                  (fun _ _ => eq_refl) (fun _ _ => eq_refl) w) as Hse.
    rewrite Hd in Hse. simpl in Hse.
    apply draw_sample_Ok_seed in Hd.
    destruct (domain_type variable); try discriminate;
      injection H as <-; simpl; now split.
  - unfold sample_single_variable in H.
    rewrite (bind_Halt _ _ _ _ _ (fg_variable_None vid w Hv)) in H.
    discriminate.
Qed.

Lemma processed_count_flag vids w w' :
  sample_evidence w' = sample_evidence w ->
  processed_count vids w' = processed_count vids w.
Proof.
  intros Hse. induction vids as [|vid rest IH]; simpl; [reflexivity|].
  rewrite IH. unfold processed. now rewrite Hse.
Qed.

Lemma iter_next_seed_shift n s :
  Nat.iter n next_seed (next_seed s) = next_seed (Nat.iter n next_seed s).
Proof. induction n as [|n IH]; simpl; [reflexivity|]. now rewrite IH. Qed.

(** X12. A run of the inference step that returns has called [erand48] once
    for each id it drew for and not at all for the ids it skipped: the
    seed has moved by exactly that many steps of the generator. *)
Theorem sweep_consumes_one_draw_each vids w w' :
  for_each sample_single_variable vids w = Ok tt w' ->
  p_rand_seed w' = Nat.iter (processed_count vids w) next_seed (p_rand_seed w).
Proof.
  revert w.
  induction vids as [|vid rest IH]; intros w H; simpl in *.
  - now injection H as <-.
  - apply bind_Ok_inv in H as ([] & w1 & Hstep & Hrest).
    apply sample_single_variable_seed in Hstep as (variable & Hv & Hse & Hs).
    rewrite (IH _ Hrest), (processed_count_flag rest w w1 Hse), Hs, Hv.
    destruct (processed variable w); simpl; [|reflexivity].
    apply iter_next_seed_shift.
Qed.

(** ** The boolean mean stays a mean *)

Lemma mean_within_step vid w :
  mean_within (infrs w) ->
  mean_within (infrs (final_state (sample_single_variable vid w))).
Proof.
  intros Hm.
  destruct (variables fg !! vid) as [variable|] eqn:Hv.
  2:{ unfold sample_single_variable.
      now rewrite (bind_Halt _ _ _ _ _ (fg_variable_None vid w Hv)). }
  rewrite (sample_single_variable_eq _ _ _ Hv).
  destruct (is_observation variable); [exact Hm|].
  destruct (negb (is_evid variable) || sample_evidence w); [|exact Hm].
  destruct (draw_sample variable (assignments_evid (infrs w))
              (weight_values (infrs w)) w) as [proposal w1|f w1] eqn:Hd.
  2:{ simpl. now rewrite (draw_sample_Halt_infrs _ _ _ _ _ _ Hd). }
  assert (Hincr : Forall2 (fun (m : R) (n : nat) => (0 <= m <= INR n)%R)
                    (agg_means (infrs w))
                    (alter S (id variable) (agg_nsamples (infrs w)))).
  { apply Forall2_alter_r; [exact Hm|].
    intros m n _ _ Hmn. rewrite S_INR. lra. }
  destruct (domain_type variable) eqn:Hty; unfold mean_within; simpl;
    try exact Hincr.
  apply Forall2_alter; [exact Hm|].
  intros m n _ _ Hmn. rewrite S_INR.
  rewrite draw_sample_boolean in Hd by exact Hty. injection Hd as <- _.
  destruct (boolean_accept _ _ _); simpl; lra.
Qed.

(** X13. If every mean accumulator lies between 0 and the sample counter of
    its slot, it still does after any run of the inference step, and
    after any sequence of inference and SGD steps when the weight update
    touches weights only. *)
Theorem mean_within_preserved w :
  mean_within (infrs w) ->
  (forall vids,
      mean_within (infrs (final_state (for_each sample_single_variable vids w))))
  /\ (update_weight_frame ->
      forall steps, mean_within (infrs (final_state (run_steps steps w)))).
Proof.
  intros Hm. split.
  - intros vids. revert w Hm.
    induction vids as [|vid rest IH]; intros w Hm; simpl; [exact Hm|].
    rewrite final_state_bind.
    pose proof (mean_within_step vid w Hm) as Hs.
    destruct (sample_single_variable vid w) as [[] w1|f w1]; simpl in Hs;
      [now apply IH|exact Hs].
  - intros Hu steps. revert w Hm.
    induction steps as [|s rest IH]; intros w Hm; simpl; [exact Hm|].
    rewrite final_state_bind.
    assert (Hs : mean_within (infrs (final_state (run_step s w)))).
    { destruct s as [vid|vid stepsize]; simpl.
      - now apply mean_within_step.
      - destruct (sample_sgd_single_variable_agg_eq vid stepsize w Hu)
          as (E1 & E2 & _).
        unfold mean_within. now rewrite E1, E2. }
    destruct (run_step s w) as [[] w1|f w1]; simpl in Hs;
      [now apply IH|exact Hs].
Qed.

(** ** Laws of the boolean coin *)

Lemma p_one_monotone p1 p1' p0 :
  (p1 <= p1')%R -> (p_one p1 p0 <= p_one p1' p0)%R.
Proof.
  intros Hle. unfold p_one.
  pose proof (exp_pos p1) as H1. pose proof (exp_pos p1') as H1'.
  pose proof (exp_pos p0) as H0.
  assert (He : (exp p1 <= exp p1')%R).
  { destruct Hle as [Hlt| ->]; [left; now apply exp_increasing|right; reflexivity]. }
  apply (Rmult_le_reg_r ((exp p1 + exp p0) * (exp p1' + exp p0))); [nra|].
  replace (exp p1 / (exp p1 + exp p0)
           * ((exp p1 + exp p0) * (exp p1' + exp p0)))%R
    with (exp p1 * (exp p1' + exp p0))%R by (field; lra).
  replace (exp p1' / (exp p1' + exp p0)
           * ((exp p1 + exp p0) * (exp p1' + exp p0)))%R
    with (exp p1' * (exp p1 + exp p0))%R by (field; lra).
  nra.
Qed.

(** X3. The coin looks at the difference of the potentials only; it accepts
    every draw below an accepted one; raising the potential of 1 never
    turns an acceptance into a rejection; swapping the potentials swaps
    the odds; and with equal potentials it accepts exactly the draws
    below 1/2. *)
Theorem boolean_coin_laws p1 p0 r :
  (forall c, boolean_accept (p1 + c) (p0 + c) r = boolean_accept p1 p0 r)
  /\ (forall r', (r' <= r)%R ->
                 boolean_accept p1 p0 r = true ->
                 boolean_accept p1 p0 r' = true)
  /\ (forall p1', (p1 <= p1')%R ->
                  boolean_accept p1 p0 r = true ->
                  boolean_accept p1' p0 r = true)
  /\ (p_one p1 p0 + p_one p0 p1 = 1)%R
  /\ (boolean_accept p1 p1 r = true <-> (r < 1 / 2)%R).
Proof.
  split; [|split; [|split; [|split]]].
  - intros c. unfold boolean_accept.
    replace (p0 + c - (p1 + c))%R with (p0 - p1)%R by lra. reflexivity.
  - intros r' Hle. rewrite !boolean_accept_true. lra.
  - intros p1' Hle. rewrite !boolean_accept_true.
    pose proof (p_one_monotone p1 p1' p0 Hle). lra.
  - unfold p_one.
    pose proof (exp_pos p1). pose proof (exp_pos p0). field. lra.
  - rewrite boolean_accept_true. unfold p_one.
    pose proof (exp_pos p1).
    replace (exp p1 / (exp p1 + exp p1))%R with (1 / 2)%R by (field; lra).
    reflexivity.
Qed.

(** ** Evidence during learning *)

(** X14. An SGD step on an evidence variable leaves its pinned value in the
    evidence assignment vector, whether the step returns or its free pass
    halts, whatever the slot held before; the weight update is taken to
    touch weights only. *)
Theorem sgd_pins_evidence vid variable stepsize w :
  variables fg !! vid = Some variable ->
  is_observation variable = false ->
  is_evid variable = true ->
  id variable < length (assignments_evid (infrs w)) ->
  update_weight_frame ->
  assignments_evid
    (infrs (final_state (sample_sgd_single_variable vid stepsize w)))
  !! id variable
  = Some (assignment_evid variable).
Proof.
  intros Hv Hobs Hevid Hlen Hu.
  rewrite (sample_sgd_single_variable_eq _ _ _ _ Hv), Hobs, Hevid.
  rewrite andb_false_r.
  pose proof (sgd_free_pass_keeps_infrs assignments_evid variable stepsize)
    as Hkeep.
  rewrite Hkeep.
  - simpl. now apply list_lookup_insert_eq.
  - intros i. split; [reflexivity|].
    now destruct (Hu variable i stepsize) as (-> & _).
Qed.

End Sampler.

(** ** Two workers side by side

    The same graph and collaborators, two workers, and two allocators that
    may hand out different contents for fresh storage. *)

Section Determinism.

Variable fg : CompactFactorGraph.
Variable potential :
  Variable_ -> VariableValue -> list VariableValue -> list R -> R.
Variable update_weight : Variable_ -> InferenceResult -> R -> InferenceResult.
Variable get_domain_index : Variable_ -> VariableValue -> nat.
Variable INVALID_VALUE : VariableValue.
Variables uninit1 uninit2 : nat -> R.

Lemma related_ret {A} (a : A) : related (ret a) (ret a).
Proof. intros w1 w2 H. now split. Qed.

Lemma related_halt {A} d : related (@halt A d) (halt d).
Proof. intros w1 w2 H. now split. Qed.

Lemma related_bind {A B} (c1 c2 : Worker A) (k1 k2 : A -> Worker B) :
  related c1 c2 ->
  (forall a w w', c2 w = Ok a w' -> related (k1 a) (k2 a)) ->
  related (bind c1 k1) (bind c2 k2).
Proof.
  intros Hc Hk w1 w2 Hsim. unfold bind.
  destruct (Hc w1 w2 Hsim) as [Hd Hs].
  destruct (c1 w1) as [a1 w1'|f1 w1'] eqn:E1;
    destruct (c2 w2) as [a2 w2'|f2 w2'] eqn:E2; simpl in *; try discriminate.
  - injection Hd as ->. exact (Hk a2 w2 w2' E2 _ _ Hs).
  - injection Hd as ->. now split.
Qed.

Lemma related_if {A} (b : bool) (c1 c2 d1 d2 : Worker A) :
  related c1 d1 -> related c2 d2 ->
  related (if b then c1 else c2) (if b then d1 else d2).
Proof. now destruct b. Qed.

Lemma related_gets {A} (f : GibbsSamplerThread -> A) :
  (forall w1 w2, similar w1 w2 -> f w1 = f w2) -> related (gets f) (gets f).
Proof. intros Hf w1 w2 H. simpl. split; [now rewrite (Hf w1 w2 H)|exact H]. Qed.

Lemma related_modify_infrs f : related (modify_infrs f) (modify_infrs f).
Proof.
  intros w1 w2 (Hst & Hen & Hseed & Hinf & Hse & Hle & Hwf1 & Hwf2).
  simpl. split; [reflexivity|].
  unfold similar. simpl. rewrite Hinf. repeat split; assumption.
Qed.

Lemma related_fg_variable vid : related (fg_variable fg vid) (fg_variable fg vid).
Proof.
  unfold fg_variable.
  destruct (_ !! _); [apply related_ret|apply related_halt].
Qed.

(** The heart of it: a multinomial draw reads only cells that its own
    first loop has written. *)
Lemma draw_sample_related variable assignments weights :
  wf_domain variable ->
  related (draw_sample potential INVALID_VALUE uninit1 variable assignments weights)
          (draw_sample potential INVALID_VALUE uninit2 variable assignments weights).
Proof.
  intros Hdom w1 w2 (Hst & Hen & Hseed & Hinf & Hse & Hle & Hwf1 & Hwf2).
  destruct (domain_type variable) eqn:Hty.
  - rewrite !draw_sample_boolean by exact Hty. rewrite Hseed.
    simpl. repeat split; auto.
  - rewrite !draw_sample_multinomial by assumption.
    rewrite Hseed.
    set (e := domain_entries variable).
    set (s := log_sum _ _ _ _ _ _).
    set (r := fst _).
    match goal with
    | |- context [select_proposal e s r INVALID_VALUE
                    (with_seed ?x (with_buffer ?y w1))] =>
        set (wa := with_seed x (with_buffer y w1))
    end.
    match goal with
    | |- context [select_proposal e s r INVALID_VALUE
                    (with_seed ?x (with_buffer ?y w2))] =>
        set (wb := with_seed x (with_buffer y w2))
    end.
    assert (Hag : drawn (select_proposal e s r INVALID_VALUE wa)
                  = drawn (select_proposal e s r INVALID_VALUE wb)).
    { apply select_proposal_agree. subst wa wb. simpl.
      apply Forall_forall. intros [value index] Hin.
      pose proof (proj1 (Forall_forall _ _) Hdom _ Hin) as Hlt. simpl in Hlt.
      pose proof (vec_reserve_capacity uninit1 (cardinality variable) _ Hwf1).
      pose proof (vec_reserve_capacity uninit2 (cardinality variable) _ Hwf2).
      unfold vec_capacity in *. simpl.
      apply stored_cells_agree; [lia|lia|].
      right. apply list_elem_of_fmap. exists (value, index).
      split; [reflexivity|exact Hin]. }
    rewrite Hag.
    assert (Hsim : similar wa wb).
    { subst wa wb. unfold similar, vec_wf, vec_capacity. simpl.
      rewrite !stored_cells_length.
      repeat split; auto; apply vec_reserve_wf; assumption. }
    destruct (drawn (select_proposal e s r INVALID_VALUE wb)) as [p|f];
      [destruct (p =? INVALID_VALUE)%Z|]; simpl; split; auto.
  - rewrite !draw_sample_other by exact Hty. simpl.
    split; [reflexivity|]. repeat split; auto.
Qed.

Lemma similar_infrs w1 w2 : similar w1 w2 -> infrs w1 = infrs w2.
Proof. unfold similar. tauto. Qed.

Lemma similar_sample_evidence w1 w2 :
  similar w1 w2 -> sample_evidence w1 = sample_evidence w2.
Proof. unfold similar. tauto. Qed.

Lemma similar_learn_non_evidence w1 w2 :
  similar w1 w2 -> learn_non_evidence w1 = learn_non_evidence w2.
Proof. unfold similar. tauto. Qed.

Hypothesis fg_wf : Forall wf_domain (variables fg).

Lemma fg_variable_wf vid variable w w' :
  fg_variable fg vid w = Ok variable w' -> wf_domain variable.
Proof using fg_wf.
  intros H. apply fg_variable_Ok in H as [H _].
  eapply Forall_lookup_1; eassumption.
Qed.

Lemma sample_single_variable_related vid :
  related
    (sample_single_variable fg potential get_domain_index INVALID_VALUE
       uninit1 vid)
    (sample_single_variable fg potential get_domain_index INVALID_VALUE
       uninit2 vid).
Proof using fg_wf.
  unfold sample_single_variable.
  apply related_bind; [apply related_fg_variable|].
  intros variable w w' Hv. apply fg_variable_wf in Hv.
  apply related_if; [apply related_ret|].
  apply related_bind; [apply related_gets, similar_sample_evidence|].
  intros resample _ _ _.
  apply related_if; [|apply related_ret].
  apply related_bind; [apply related_gets, similar_infrs|].
  intros i _ _ _.
  apply related_bind; [now apply draw_sample_related|].
  intros proposal _ _ _.
  apply related_bind; [apply related_modify_infrs|].
  intros _ _ _ _.
  apply related_bind; [apply related_modify_infrs|].
  intros _ _ _ _.
  destruct (domain_type variable);
    [apply related_modify_infrs..|apply related_halt].
Qed.

Lemma sample_sgd_single_variable_related vid stepsize :
  related
    (sample_sgd_single_variable fg potential update_weight INVALID_VALUE
       uninit1 vid stepsize)
    (sample_sgd_single_variable fg potential update_weight INVALID_VALUE
       uninit2 vid stepsize).
Proof using fg_wf.
  unfold sample_sgd_single_variable.
  apply related_bind; [apply related_fg_variable|].
  intros variable w w' Hv. apply fg_variable_wf in Hv.
  apply related_if; [apply related_ret|].
  apply related_bind; [apply related_gets, similar_learn_non_evidence|].
  intros learn _ _ _.
  apply related_if; [apply related_ret|].
  apply related_bind.
  { apply related_if; [apply related_ret|].
    apply related_bind; [apply related_gets, similar_infrs|].
    intros i _ _ _. now apply draw_sample_related. }
  intros proposal _ _ _.
  apply related_bind; [apply related_modify_infrs|].
  intros _ _ _ _.
  apply related_bind; [apply related_gets, similar_infrs|].
  intros i _ _ _.
  apply related_bind; [now apply draw_sample_related|].
  intros proposal' _ _ _.
  apply related_bind; [apply related_modify_infrs|].
  intros _ _ _ _.
  apply related_modify_infrs.
Qed.

Lemma run_steps_related steps :
  related
    (run_steps fg potential update_weight get_domain_index INVALID_VALUE
       uninit1 steps)
    (run_steps fg potential update_weight get_domain_index INVALID_VALUE
       uninit2 steps).
Proof using fg_wf.
  induction steps as [|[vid|vid stepsize] rest IH]; simpl.
  - apply related_ret.
  - apply related_bind; [apply sample_single_variable_related|].
    intros _ _ _ _. exact IH.
  - apply related_bind; [apply sample_sgd_single_variable_related|].
    intros _ _ _ _. exact IH.
Qed.

Lemma draw_sequence_related calls w1 w2 :
  Forall (fun c : Variable_ * list VariableValue * list R => wf_domain c.1.1)
         calls ->
  similar w1 w2 ->
  draw_sequence potential INVALID_VALUE uninit1 calls w1
  = draw_sequence potential INVALID_VALUE uninit2 calls w2.
Proof.
  intros Hcalls. revert w1 w2.
  induction Hcalls as [|[[variable assignments] weights] rest Hwf _ IH];
    intros w1 w2 Hsim; simpl; [reflexivity|].
  destruct (draw_sample_related variable assignments weights Hwf w1 w2 Hsim)
    as [Hd Hs].
  rewrite Hd. f_equal.
  destruct (draw_sample _ _ uninit1 _ _ _ w1);
    destruct (draw_sample _ _ uninit2 _ _ _ w2);
    simpl in *; try discriminate; auto.
Qed.

(** C9. Two workers with the same shard, the same seed triple and the
    same graph, assignment and weight inputs (they may differ in what
    their scratch buffers hold and in what fresh storage holds) show the
    same results: each call of [draw_sample] returns the same value or
    halts the same way and leaves the same seed, every sequence of calls
    of [draw_sample] shows the same sequence of values, and every
    sequence of inference and SGD steps ends with the same outcome, the
    same inference state and the same seed.  Sparse domains are taken to
    map into indices below the cardinality. *)
Theorem draws_deterministic w1 w2 :
  similar w1 w2 ->
  (forall variable assignments weights,
      wf_domain variable ->
      let o1 := draw_sample potential INVALID_VALUE uninit1 variable
                  assignments weights w1 in
      let o2 := draw_sample potential INVALID_VALUE uninit2 variable
                  assignments weights w2 in
      drawn o1 = drawn o2
      /\ p_rand_seed (final_state o1) = p_rand_seed (final_state o2))
  /\ (forall calls,
        Forall (fun c : Variable_ * list Z * list R => wf_domain c.1.1) calls ->
        draw_sequence potential INVALID_VALUE uninit1 calls w1
        = draw_sequence potential INVALID_VALUE uninit2 calls w2)
  /\ (forall steps,
        let o1 := run_steps fg potential update_weight get_domain_index
                    INVALID_VALUE uninit1 steps w1 in
        let o2 := run_steps fg potential update_weight get_domain_index
                    INVALID_VALUE uninit2 steps w2 in
        drawn o1 = drawn o2
        /\ infrs (final_state o1) = infrs (final_state o2)
        /\ p_rand_seed (final_state o1) = p_rand_seed (final_state o2)).
Proof using fg_wf.
  intros Hsim. split; [|split].
  - intros variable assignments weights Hdom.
    destruct (draw_sample_related variable assignments weights Hdom w1 w2 Hsim)
      as [Hd Hs].
    split; [exact Hd|]. unfold similar in Hs. tauto.
  - intros calls Hcalls. now apply draw_sequence_related.
  - intros steps.
    destruct (run_steps_related steps w1 w2 Hsim) as [Hd Hs].
    split; [exact Hd|]. unfold similar in Hs. tauto.
Qed.

End Determinism.

(** ** The generator behind the draws *)

Lemma u16_range z : (0 <= u16 z < 65536)%Z.
Proof.
  unfold u16. change 0xFFFF%Z with (Z.ones 16).
  rewrite Z.land_ones by lia. apply Z.mod_pos_bound. lia.
Qed.

Lemma u16_mod z : u16 z = (z mod 65536)%Z.
Proof.
  unfold u16. change 0xFFFF%Z with (Z.ones 16).
  now rewrite Z.land_ones by lia.
Qed.

(** Three 16-bit words hold a 48-bit state without loss. *)
Lemma seed_to_Z_of_Z x :
  (0 <= x < 2 ^ 48)%Z -> seed_to_Z (seed_of_Z x) = x.
Proof.
  intros Hx. unfold seed_to_Z, seed_of_Z. simpl.
  rewrite !u16_mod, !Z.shiftr_div_pow2, !Z.shiftl_mul_pow2 by lia.
  rewrite !Z.mod_mod by lia.
  assert (H0 : (0 <= x mod 65536 < 65536)%Z) by (apply Z.mod_pos_bound; lia).
  assert (H1 : (0 <= (x / 2 ^ 16) mod 65536 < 65536)%Z)
    by (apply Z.mod_pos_bound; lia).
  assert (H2 : (0 <= (x / 2 ^ 32) mod 65536 < 65536)%Z)
    by (apply Z.mod_pos_bound; lia).
  rewrite <- (Z.add_nocarry_lor (((x / 2 ^ 16) mod 65536) * 2 ^ 16)%Z).
  2:{ apply Z.bits_inj'. intros n Hn. rewrite Z.land_spec, Z.bits_0.
      destruct (Z.ltb_spec n 16).
      - rewrite Z.mul_pow2_bits_low by lia. reflexivity.
      - assert (Hb : Z.testbit (x mod 65536) n = false).
        { apply Z.bits_above_log2; [lia|].
          destruct (Z.eq_dec (x mod 65536)%Z 0%Z) as [->|Hne]; [simpl; lia|].
          apply Z.log2_lt_pow2; [lia|].
          apply Z.lt_le_trans with (2 ^ 16)%Z; [lia|].
          apply Z.pow_le_mono_r; lia. }
        rewrite Hb. apply andb_false_r. }
  rewrite <- Z.add_nocarry_lor.
  2:{ apply Z.bits_inj'. intros n Hn. rewrite Z.land_spec, Z.bits_0.
      destruct (Z.ltb_spec n 32).
      - rewrite Z.mul_pow2_bits_low by lia. reflexivity.
      - set (lo := (((x / 2 ^ 16) mod 65536) * 2 ^ 16 + x mod 65536)%Z).
        assert (Hlo : (0 <= lo < 2 ^ 32)%Z) by (subst lo; lia).
        assert (Hb : Z.testbit lo n = false).
        { apply Z.bits_above_log2; [lia|].
          destruct (Z.eq_dec lo 0%Z) as [->|Hne]; [simpl; lia|].
          apply Z.log2_lt_pow2; [lia|].
          apply Z.lt_le_trans with (2 ^ 32)%Z; [lia|].
          apply Z.pow_le_mono_r; lia. }
        rewrite Hb. apply andb_false_r. }
  assert (E1 : (x / 2 ^ 32 < 65536)%Z)
    by (apply Z.div_lt_upper_bound; lia).
  assert (E0 : (0 <= x / 2 ^ 32)%Z) by (apply Z.div_pos; lia).
  rewrite (Z.mod_small (x / 2 ^ 32)%Z) by lia.
  pose proof (Z.div_mod x 65536%Z ltac:(lia)) as D0.
  pose proof (Z.div_mod (x / 65536)%Z 65536%Z ltac:(lia)) as D1.
  rewrite Z.div_div in D1 by lia.
  change (2 ^ 16)%Z with 65536%Z. change (2 ^ 32)%Z with 4294967296%Z.
  change (65536 * 65536)%Z with 4294967296%Z in D1.
  lia.
Qed.

Lemma lcg_next_range x : (0 <= lcg_next x < 2 ^ 48)%Z.
Proof. unfold lcg_next. apply Z.mod_pos_bound. lia. Qed.

(** Every draw lies in [[0, 1)], each seed word stays within 16 bits, and
    the three words hold the state of the 48-bit generator exactly: n
    draws from a seed leave the state that n steps of the linear
    congruence X -> (0x5DEECE66D X + 0xB) mod 2^48 lead to. *)
Theorem erand48_stream s :
  (0 <= fst (erand48 s) < 1)%R
  /\ snd (erand48 s) = next_seed s
  /\ (0 <= xsubi0 (next_seed s) < 65536
      /\ 0 <= xsubi1 (next_seed s) < 65536
      /\ 0 <= xsubi2 (next_seed s) < 65536)%Z
  /\ forall n,
       seed_to_Z (Nat.iter n next_seed s) = Nat.iter n lcg_next (seed_to_Z s).
Proof.
  split; [|split; [reflexivity|split]].
  - unfold erand48. simpl.
    pose proof (lcg_next_range (seed_to_Z s)) as [Hlo Hhi].
    apply IZR_le in Hlo. apply IZR_lt in Hhi.
    assert (Hpos : (0 < IZR (2 ^ 48))%R) by (apply IZR_lt; lia).
    split.
    + apply Rmult_le_pos; [exact Hlo|]. left. now apply Rinv_0_lt_compat.
    + apply (Rmult_lt_reg_r (IZR (2 ^ 48))); [exact Hpos|].
      unfold Rdiv. rewrite Rmult_assoc, Rinv_l by lra. lra.
  - unfold next_seed, seed_of_Z. simpl. repeat split; apply u16_range.
  - intros n. induction n as [|n IH]; simpl; [reflexivity|].
    rewrite <- IH. unfold next_seed at 1.
    apply seed_to_Z_of_Z, lcg_next_range.
Qed.

(** ** Concrete inputs *)

Lemma die_wf : wf_domain die.
Proof. unfold wf_domain. simpl. repeat constructor. Defined.

Lemma first_draw_of_fresh_worker :
  fst (erand48 (p_rand_seed fresh_worker))
  = (IZR 252149039170011 / IZR 281474976710656)%R.
Proof. reflexivity. Qed.

(** With every potential at -100000, the value that seeds the running sum,
    each of the two values gets probability 1/3. *)
Lemma third_of_the_mass :
  let a := (-100000)%R in
  exp (a - logadd (logadd a a) a) = (1 / 3)%R.
Proof.
  intros a. unfold logadd.
  pose proof (exp_pos a) as Ha.
  rewrite (exp_ln (exp a + exp a)) by lra.
  unfold Rminus. rewrite exp_plus, exp_Ropp, exp_ln by lra.
  field. lra.
Qed.

Lemma fresh_worker_first_loop :
  compute_potentials (flat_potential (-100000)) die [] []
    (domain_entries die) (-100000)%R
    (with_buffer (vec_reserve zeroed (cardinality die)
                    (varlen_potential_buffer_ fresh_worker)) fresh_worker)
  = Ok (logadd (logadd (-100000) (-100000)) (-100000))
       (with_buffer {| vec_size := 0;
                       vec_data := [(-100000)%R; (-100000)%R] |}
          fresh_worker).
Proof.
  rewrite compute_potentials_ok; [reflexivity|].
  simpl. repeat constructor.
Qed.

Lemma fresh_worker_never_selected :
  never_selected [(-100000)%R; (-100000)%R] (domain_entries die)
    (logadd (logadd (-100000) (-100000)) (-100000))
    (fst (erand48 (p_rand_seed fresh_worker))).
Proof.
  rewrite first_draw_of_fresh_worker.
  change (domain_entries die) with [(0%Z, 0); (1%Z, 1)].
  pose proof third_of_the_mass as Hthird. cbv zeta in Hthird.
  cbn [never_selected]. eexists. split; [reflexivity|].
  rewrite Hthird. split; [lra|].
  eexists. split; [reflexivity|]. rewrite Hthird.
  split; [lra|exact I].
Qed.

(** C2. The second loop can run out of domain values: on the dense
    two-valued variable [die] with both potentials at -100000 and the draw
    r = 252149039170011 / 2^48, the normalised probabilities are 1/3 and
    1/3, r stays positive after both subtractions, no value is selected
    and [draw_sample] stops on its own assertion instead of returning a
    member of the domain. *)
Theorem multinomial_draw_unselected :
  draw_sample (flat_potential (-100000)) (-1) zeroed die [] [] fresh_worker
  = Halt AssertionFailed
      (with_seed (next_seed (p_rand_seed fresh_worker))
         (with_buffer {| vec_size := 0;
                         vec_data := [(-100000)%R; (-100000)%R] |}
            fresh_worker)).
Proof.
  rewrite draw_sample_multinomial;
    [|reflexivity|exact die_wf|unfold vec_wf; simpl; lia].
  rewrite select_proposal_unselected; [reflexivity|].
  exact fresh_worker_never_selected.
Qed.

(** C4. [reserve] does not give the scratch buffer elements: on the same
    worker, whose buffer has size 0, a draw for [die] leaves the size at 0
    when the first loop starts and when the draw is over, although the
    loops have written and read the cells 0 and 1. *)
Theorem scratch_buffer_keeps_size_zero :
  vec_size (vec_reserve zeroed (cardinality die)
              (varlen_potential_buffer_ fresh_worker)) = 0
  /\ varlen_potential_buffer_
       (final_state
          (draw_sample (flat_potential 0) (-1) zeroed die [] [] fresh_worker))
     = {| vec_size := 0; vec_data := [0%R; 0%R] |}.
Proof.
  split; [reflexivity|].
  assert (Hty : domain_type die = DTYPE_MULTINOMIAL) by reflexivity.
  pose proof die_wf as Hdom.
  assert (Hwf : vec_wf (varlen_potential_buffer_ fresh_worker))
    by (unfold vec_wf; simpl; lia).
  destruct (draw_sample_buffer_size (flat_potential 0) (-1) zeroed die [] []
              fresh_worker Hty Hdom Hwf) as (Hsize & _ & Hdata).
  destruct (varlen_potential_buffer_ (final_state _)) as [size data].
  cbn [vec_size vec_data] in Hsize, Hdata. rewrite Hsize, Hdata.
  reflexivity.
Qed.

(** *** Two ordinary draws

    On the same worker the boolean variable [coin] with both potentials at
    0 rejects (0.8958 * 2 is not below 1), and the inference step stores
    the 0 and counts the sample; [die] with both potentials at 0 passes
    value 0 (probability just below 1/2) and selects value 1. *)

Example coin_step :
  sample_single_variable (graph_of coin) (flat_potential 0) dense_index (-1)
    zeroed 0 (with_infrs small_infrs fresh_worker)
  = Ok tt
      (with_infrs
         {| assignments_evid := [0%Z]; assignments_free := [0%Z];
            weight_values := []; agg_nsamples := [1];
            agg_means := [(0 + 0)%R]; multinomial_tallies := [0; 0] |}
         (with_seed (next_seed (p_rand_seed fresh_worker)) fresh_worker)).
Proof.
  rewrite (sample_single_variable_eq _ _ _ _ _ 0 coin) by reflexivity.
  change (is_observation coin) with false.
  change (negb (is_evid coin) || _) with true. cbv iota.
  rewrite draw_sample_boolean by reflexivity.
  assert (E : boolean_accept (flat_potential 0 coin 1%Z [0%Z] [])
                (flat_potential 0 coin 0%Z [0%Z] [])
                (fst (erand48 (p_rand_seed (with_infrs small_infrs fresh_worker))))
              = false).
  { unfold boolean_accept, flat_potential.
    change (p_rand_seed (with_infrs small_infrs fresh_worker))
      with (p_rand_seed fresh_worker).
    rewrite first_draw_of_fresh_worker, Rminus_diag, exp_0.
    destruct (Rlt_dec _ _) as [H|_]; [lra|reflexivity]. }
  change (infrs (with_infrs small_infrs fresh_worker)) with small_infrs.
  change (assignments_evid small_infrs) with [0%Z].
  change (weight_values small_infrs) with (@nil R).
  rewrite E. reflexivity.
Qed.

Lemma seed_value_small : (0 < exp (-100000) < / 100001)%R.
Proof.
  split; [apply exp_pos|].
  replace (-100000)%R with (Ropp 100000) by lra.
  rewrite exp_Ropp.
  apply Rinv_lt_contravar.
  - pose proof (exp_pos 100000). lra.
  - pose proof (exp_ineq1 100000). lra.
Qed.

Example die_draw :
  draw_sample (flat_potential 0) (-1) zeroed die [] [] fresh_worker
  = Ok 1%Z
      (with_seed (next_seed (p_rand_seed fresh_worker))
         (with_buffer {| vec_size := 0; vec_data := [0%R; 0%R] |}
            fresh_worker)).
Proof.
  rewrite draw_sample_multinomial;
    [|reflexivity|exact die_wf|unfold vec_wf; simpl; lia].
  cbv zeta.
  set (w' := with_seed _ _).
  assert (E : select_proposal (domain_entries die)
                (log_sum (flat_potential 0) die [] [] (domain_entries die)
                   (-100000))
                (fst (erand48 (p_rand_seed fresh_worker))) (-1) w'
              = Ok 1%Z w').
  { rewrite first_draw_of_fresh_worker.
    change (domain_entries die) with [(0%Z, 0); (1%Z, 1)].
    change (log_sum _ _ _ _ _ _) with (logadd (logadd (-100000) 0) 0)%R.
    assert (Hp : (/ 2 - / 100000 < exp (0 - logadd (logadd (-100000) 0) 0) < / 2)%R).
    { pose proof seed_value_small as [He1 He2].
      rewrite exp_minus_div, exp_0. unfold logadd.
      rewrite (exp_ln (exp (-100000) + exp 0)) by (rewrite exp_0; lra).
      rewrite exp_ln by (rewrite exp_0; lra).
      rewrite exp_0.
      assert (He3 : (/ 100001 < / 100000)%R)
        by (apply Rinv_lt_contravar; lra).
      assert (Hinv : (/ (2 + / 100000) < / (exp (-100000) + 1 + 1) < / 2)%R).
      { split; apply Rinv_lt_contravar; nra. }
      assert (Hlow : (/ 2 - / 100000 < / (2 + / 100000))%R).
      { apply (Rmult_lt_reg_r (2 + / 100000)); [lra|].
        rewrite Rinv_l by lra. nra. }
      unfold Rdiv. lra. }
    cbn [select_proposal]. unfold bind, buffer_load.
    change (vec_data (varlen_potential_buffer_ w') !! 0) with (Some 0%R).
    change (vec_data (varlen_potential_buffer_ w') !! 1) with (Some 0%R).
    cbv iota beta.
    destruct (Rle_dec (252149039170011 / 281474976710656
                       - exp (0 - logadd (logadd (-100000) 0) 0)) 0)
      as [H|_]; [lra|].
    change (vec_data (varlen_potential_buffer_ w') !! 1) with (Some 0%R).
    cbv iota beta.
    destruct (Rle_dec _ _) as [_|H]; [reflexivity|lra]. }
  rewrite E. reflexivity.
Qed.

(** *** The hypotheses of the theorems are met *)

Lemma graph_of_ids (variable : Variable_) :
  id variable = 0 -> ids_are_indices (graph_of variable).
Proof.
  intros Hid [|vid] u H; simpl in H.
  - injection H as <-. exact Hid.
  - destruct vid; discriminate.
Defined.

Lemma no_update_frame : update_weight_frame no_update.
Proof. intros variable i stepsize. repeat split. Defined.

Lemma two_coins_ids : ids_are_indices two_coins.
Proof.
  intros [|[|vid]] u H; simpl in H.
  - now injection H as <-.
  - now injection H as <-.
  - destruct vid; discriminate.
Defined.

Lemma boolean_coin_probability_witness :
  domain_type coin = DTYPE_BOOLEAN
  /\ (0 < p_one 0 0 < 1)%R
  /\ exists pr : Riemann_integrable (accept_indicator 0 0) 0 1,
       RiemannInt pr = (exp 0 / (exp 0 + exp 0))%R.
Proof.
  split; [reflexivity|].
  exact (proj2 (proj2 (proj2
           (boolean_coin_probability (flat_potential 0) (-1) zeroed coin [] []
              fresh_worker eq_refl)))).
Defined.

Lemma unselected_draw_halts_witness :
  variables (graph_of die) !! 0 = Some die
  /\ domain_type die = DTYPE_MULTINOMIAL
  /\ draw_sample (flat_potential (-100000)) (-1) zeroed die [] [] fresh_worker
     = Halt AssertionFailed
         (with_seed (next_seed (p_rand_seed fresh_worker))
            (with_buffer {| vec_size := 0;
                            vec_data := [(-100000)%R; (-100000)%R] |}
               fresh_worker))
  /\ (forall assignments weights w v w',
        draw_sample (flat_potential (-100000)) (-1) zeroed die assignments
          weights w = Ok v w' ->
        v <> (-1)%Z)
  /\ (forall w f w1,
        draw_sample (flat_potential (-100000)) (-1) zeroed die
          (assignments_free (infrs w)) (weight_values (infrs w)) w
        = Halt f w1 ->
        sgd_free_pass (flat_potential (-100000)) no_update (-1) zeroed die 1 w
        = Halt f w1
        /\ infrs w1 = infrs w).
Proof.
  split; [reflexivity|]. split; [reflexivity|].
  pose proof (unselected_draw_halts (graph_of die) (flat_potential (-100000))
                no_update dense_index (-1) zeroed 0 die 1 eq_refl eq_refl)
    as (H1 & H2 & _ & _ & H5).
  split; [|split; [exact H2|exact H5]].
  exact (H1 [] [] fresh_worker _ _ fresh_worker_first_loop
           fresh_worker_never_selected).
Defined.

Lemma evidence_gate_witness :
  variables (graph_of pinned) !! 0 = Some pinned
  /\ is_observation pinned = false
  /\ sample_single_variable (graph_of pinned) (flat_potential 0) dense_index
       (-1) zeroed 0 fresh_worker
     = Ok tt fresh_worker.
Proof.
  split; [reflexivity|]. split; [reflexivity|].
  exact (proj1 (evidence_gate (graph_of pinned) (flat_potential 0) dense_index
                  (-1) zeroed 0 pinned fresh_worker eq_refl eq_refl)
           eq_refl).
Defined.

Lemma sgd_evidence_pass_witness :
  variables (graph_of pinned) !! 0 = Some pinned
  /\ is_observation pinned = false
  /\ learn_non_evidence fresh_worker || is_evid pinned = true
  /\ forall w',
       sample_sgd_single_variable (graph_of pinned) (flat_potential 0)
         no_update (-1) zeroed 0 1 fresh_worker = Ok tt w' ->
       p_rand_seed w' = next_seed (p_rand_seed fresh_worker).
Proof.
  split; [reflexivity|]. split; [reflexivity|]. split; [reflexivity|].
  pose proof (proj1 (sgd_evidence_pass (graph_of pinned) (flat_potential 0)
                       no_update (-1) zeroed 0 pinned 1 fresh_worker
                       eq_refl eq_refl eq_refl) eq_refl)
    as (_ & _ & _ & _ & H).
  exact H.
Defined.

Lemma observation_untouched_witness :
  variables (graph_of observed) !! 0 = Some observed
  /\ is_observation observed = true
  /\ (forall w,
        sample_single_variable (graph_of observed) (flat_potential 0)
          dense_index (-1) zeroed 0 w = Ok tt w)
  /\ (forall stepsize w,
        sample_sgd_single_variable (graph_of observed) (flat_potential 0)
          no_update (-1) zeroed 0 stepsize w = Ok tt w)
  /\ (forall steps w,
        slots_at 0
          (infrs (final_state
                    (run_steps (graph_of observed) (flat_potential 0) no_update
                       dense_index (-1) zeroed steps w)))
        = slots_at 0 (infrs w)).
Proof.
  split; [reflexivity|]. split; [reflexivity|].
  pose proof (observation_untouched (graph_of observed) (flat_potential 0)
                no_update dense_index (-1) zeroed 0 observed eq_refl eq_refl)
    as (H1 & H2 & _ & H4).
  split; [exact H1|]. split; [exact H2|].
  exact (H4 (graph_of_ids observed eq_refl) no_update_frame).
Defined.

Lemma aggregates_monotone_witness :
  update_weight_frame no_update
  /\ ids_are_indices two_coins
  /\ NoDup [0; 1]
  /\ processed coin pair_worker = true
  /\ processed frozen pair_worker = false
  /\ (forall steps w,
        agg_le (infrs w)
          (infrs (final_state
                    (run_steps two_coins (flat_potential 0) no_update
                       dense_index (-1) zeroed steps w))))
  /\ exists w',
       for_each (sample_single_variable two_coins (flat_potential 0)
                   dense_index (-1) zeroed) [0; 1] pair_worker
       = Ok tt w'
       /\ agg_nsamples (infrs pair_worker) !! 0 = Some 0
       /\ agg_nsamples (infrs w') !! 0 = Some 1
       /\ agg_nsamples (infrs pair_worker) !! 1 = Some 0
       /\ agg_nsamples (infrs w') !! 1 = Some 0.
Proof.
  assert (Hnd : NoDup [0; 1]).
  { apply NoDup_cons. split; [|apply NoDup_singleton].
    intros H. apply list_elem_of_singleton in H. discriminate. }
  assert (Hall : forall vid, vid ∈ [0; 1] ->
            exists variable,
              variables two_coins !! vid = Some variable
              /\ (processed variable pair_worker = true ->
                  domain_type variable = DTYPE_BOOLEAN)).
  { intros vid H. apply elem_of_cons in H as [->|H].
    - exists coin. now split.
    - apply list_elem_of_singleton in H as ->. exists frozen. now split. }
  split; [exact no_update_frame|].
  split; [exact two_coins_ids|].
  split; [exact Hnd|].
  split; [reflexivity|]. split; [reflexivity|].
  pose proof (aggregates_monotone two_coins (flat_potential 0) no_update
                dense_index (-1) zeroed no_update_frame two_coins_ids)
    as (H1 & _ & _ & H4 & _).
  split; [exact H1|].
  destruct (H4 [0; 1] pair_worker Hnd Hall) as (w' & Hrun & Hcount).
  exists w'. split; [exact Hrun|].
  split; [reflexivity|]. split; [exact (Hcount 0 0 eq_refl)|].
  split; [reflexivity|]. exact (Hcount 1 0 eq_refl).
Defined.

Lemma draws_deterministic_witness :
  Forall wf_domain (variables (graph_of die))
  /\ similar fresh_worker used_worker
  /\ forall steps,
       infrs (final_state
                (run_steps (graph_of die) (flat_potential 0) no_update
                   dense_index (-1) zeroed steps fresh_worker))
       = infrs (final_state
                  (run_steps (graph_of die) (flat_potential 0) no_update
                     dense_index (-1) (fun _ => 1%R) steps used_worker)).
Proof.
  assert (Hfg : Forall wf_domain (variables (graph_of die))).
  { simpl. constructor; [exact die_wf|constructor]. }
  assert (Hsim : similar fresh_worker used_worker).
  { unfold similar, vec_wf, vec_capacity. simpl. repeat split; lia. }
  split; [exact Hfg|]. split; [exact Hsim|].
  intros steps.
  exact (proj1 (proj2 (proj2 (proj2
           (draws_deterministic (graph_of die) (flat_potential 0) no_update
              dense_index (-1) zeroed (fun _ => 1%R) Hfg fresh_worker
              used_worker Hsim))
           steps))).
Defined.

(** *** The further properties on concrete inputs *)

Lemma die_probability_bounds :
  (/ 2 - / 100000 < exp (0 - logadd (logadd (-100000) 0) 0) < / 2)%R.
Proof.
  pose proof seed_value_small as [He1 He2].
  rewrite exp_minus_div, exp_0. unfold logadd.
  rewrite (exp_ln (exp (-100000) + exp 0)) by (rewrite exp_0; lra).
  rewrite exp_ln by (rewrite exp_0; lra).
  rewrite exp_0.
  assert (He3 : (/ 100001 < / 100000)%R) by (apply Rinv_lt_contravar; lra).
  assert (Hinv : (/ (2 + / 100000) < / (exp (-100000) + 1 + 1) < / 2)%R).
  { split; apply Rinv_lt_contravar; nra. }
  assert (Hlow : (/ 2 - / 100000 < / (2 + / 100000))%R).
  { apply (Rmult_lt_reg_r (2 + / 100000)); [lra|].
    rewrite Rinv_l by lra. nra. }
  unfold Rdiv. lra.
Qed.

Lemma die_indices_nodup : NoDup (domain_entries die).*2.
Proof.
  change ((domain_entries die).*2) with [0; 1].
  apply NoDup_cons. split.
  - intros H. apply elem_of_cons in H as [H|H]; [discriminate|].
    now apply elem_of_nil in H.
  - apply NoDup_cons. split; [apply not_elem_of_nil|apply NoDup_nil_2].
Defined.

Lemma fresh_worker_wf : vec_wf (varlen_potential_buffer_ fresh_worker).
Proof. unfold vec_wf, vec_capacity. simpl. lia. Defined.

Lemma small_infrs_mean_within : mean_within small_infrs.
Proof.
  unfold mean_within. simpl. constructor; [|constructor]. simpl. lra.
Defined.

Lemma abort_comes_from_the_draw_witness :
  sample_single_variable (graph_of exotic) (flat_potential 0) dense_index (-1)
    zeroed 0 fresh_worker
  = Halt AbortCalled fresh_worker
  /\ exists variable,
       variables (graph_of exotic) !! 0 = Some variable
       /\ domain_type variable = DTYPE_OTHER.
Proof.
  split; [reflexivity|].
  exact (proj2 (proj1 (abort_comes_from_the_draw (graph_of exotic)
                         (flat_potential 0) no_update dense_index (-1) zeroed 0)
                  fresh_worker fresh_worker eq_refl)).
Defined.

Lemma boolean_steps_return_witness :
  variables (graph_of coin) !! 0 = Some coin
  /\ domain_type coin = DTYPE_BOOLEAN
  /\ (exists w',
        sample_single_variable (graph_of coin) (flat_potential 0) dense_index
          (-1) zeroed 0 fresh_worker = Ok tt w')
  /\ (exists w',
        sample_sgd_single_variable (graph_of coin) (flat_potential 0) no_update
          (-1) zeroed 0 1 fresh_worker = Ok tt w').
Proof.
  split; [reflexivity|]. split; [reflexivity|].
  exact (boolean_steps_return (graph_of coin) (flat_potential 0) no_update
           dense_index (-1) zeroed 0 coin 1 fresh_worker eq_refl eq_refl).
Defined.

Lemma draw_sample_buffer_shape_witness :
  vec_wf (varlen_potential_buffer_ fresh_worker)
  /\ vec_size
       (varlen_potential_buffer_
          (final_state
             (draw_sample (flat_potential 0) (-1) zeroed die [] [] fresh_worker)))
     = 0
  /\ cardinality die
     <= vec_capacity
          (varlen_potential_buffer_
             (final_state
                (draw_sample (flat_potential 0) (-1) zeroed die [] []
                   fresh_worker))).
Proof.
  split; [exact fresh_worker_wf|].
  destruct (draw_sample_buffer_shape (flat_potential 0) (-1) zeroed die [] []
              fresh_worker fresh_worker_wf) as (_ & Hs & _ & Hc & _).
  split; [exact Hs|exact (Hc eq_refl)].
Defined.

Lemma empty_domain_halts_witness :
  variables (graph_of void) !! 0 = Some void
  /\ domain_type void = DTYPE_MULTINOMIAL
  /\ domain_entries void = []
  /\ processed void fresh_worker = true
  /\ drawn (sample_single_variable (graph_of void) (flat_potential 0)
              dense_index (-1) zeroed 0 fresh_worker)
     = inr AssertionFailed
  /\ infrs (final_state
              (sample_single_variable (graph_of void) (flat_potential 0)
                 dense_index (-1) zeroed 0 fresh_worker))
     = infrs fresh_worker.
Proof.
  split; [reflexivity|]. split; [reflexivity|]. split; [reflexivity|].
  split; [reflexivity|].
  exact (proj2 (empty_domain_halts (graph_of void) (flat_potential 0)
                  dense_index (-1) zeroed 0 void fresh_worker
                  eq_refl eq_refl eq_refl) eq_refl).
Defined.

Lemma draw_sample_inverse_cdf_witness :
  domain_type die = DTYPE_MULTINOMIAL
  /\ wf_domain die
  /\ NoDup (domain_entries die).*2
  /\ vec_wf (varlen_potential_buffer_ fresh_worker)
  /\ drawn (draw_sample (flat_potential 0) (-1) zeroed die [] [] fresh_worker)
     = inl 1%Z.
Proof.
  split; [reflexivity|]. split; [exact die_wf|].
  split; [exact die_indices_nodup|]. split; [exact fresh_worker_wf|].
  refine (proj1 (draw_sample_inverse_cdf (flat_potential 0) (-1) zeroed die
                   [] [] fresh_worker eq_refl die_wf die_indices_nodup
                   fresh_worker_wf)
            [(0%Z, 0)] 1%Z 1 [] eq_refl _ _).
  - right. rewrite first_draw_of_fresh_worker.
    change (total_mass _ _ _ _ _ _)
      with (exp (0 - logadd (logadd (-100000) 0) 0) + 0)%R.
    pose proof die_probability_bounds. lra.
  - rewrite first_draw_of_fresh_worker.
    change (total_mass _ _ _ _ _ _)
      with (exp (0 - logadd (logadd (-100000) 0) 0)
            + (exp (0 - logadd (logadd (-100000) 0) 0) + 0))%R.
    pose proof die_probability_bounds. lra.
Defined.

Lemma draw_sample_multinomial_member_witness :
  domain_type die = DTYPE_MULTINOMIAL
  /\ draw_sample (flat_potential 0) (-1) zeroed die [] [] fresh_worker
     = Ok 1%Z
         (with_seed (next_seed (p_rand_seed fresh_worker))
            (with_buffer {| vec_size := 0; vec_data := [0%R; 0%R] |}
               fresh_worker))
  /\ 1%Z <> (-1)%Z
  /\ (0 <= 1 < Z.of_nat (cardinality die))%Z.
Proof.
  split; [reflexivity|]. split; [exact die_draw|].
  exact (draw_sample_multinomial_member (flat_potential 0) (-1) zeroed die
           [] [] fresh_worker 1%Z _ eq_refl die_draw).
Defined.


Lemma writes_stay_on_visited_ids_witness :
  ids_are_indices two_coins
  /\ (1 ∉ [0])
  /\ update_weight_frame no_update
  /\ slots_at 1 (infrs pair_worker)
     = (Some 0%Z, Some 0%Z, Some 0, Some 0%R)
  /\ slots_at 1
       (infrs (final_state
                 (for_each (sample_single_variable two_coins
                              (flat_potential 0) dense_index (-1) zeroed)
                    [0] pair_worker)))
     = (Some 0%Z, Some 0%Z, Some 0, Some 0%R)
  /\ (forall stepsize,
        slots_at 1
          (infrs (final_state
                    (for_each
                       (fun vid =>
                          sample_sgd_single_variable two_coins
                            (flat_potential 0) no_update (-1) zeroed vid
                            stepsize)
                       [0] pair_worker)))
        = (Some 0%Z, Some 0%Z, Some 0, Some 0%R))
  /\ agg_nsamples (infrs pair_worker) !! 0 = Some 0
  /\ agg_nsamples
       (infrs (final_state
                 (for_each (sample_single_variable two_coins
                              (flat_potential 0) dense_index (-1) zeroed)
                    [0] pair_worker))) !! 0
     = Some 1.
Proof.
  assert (Hk : 1 ∉ [0]).
  { intros H. apply elem_of_cons in H as [H|H]; [discriminate|].
    now apply elem_of_nil in H. }
  split; [exact two_coins_ids|]. split; [exact Hk|].
  split; [exact no_update_frame|]. split; [reflexivity|].
  destruct (writes_stay_on_visited_ids two_coins (flat_potential 0)
              no_update dense_index (-1) zeroed [0] 1 pair_worker
              two_coins_ids Hk) as [Hinf Hsgd].
  split; [exact Hinf|].
  split; [exact (Hsgd no_update_frame)|].
  split; [reflexivity|].
  destruct (sweep_returns two_coins (flat_potential 0) dense_index (-1)
              zeroed [0] pair_worker) as (w' & Hrun).
  { intros vid H. apply list_elem_of_singleton in H as ->.
    exists coin. now split. }
  rewrite Hrun.
  exact (sweep_counters two_coins (flat_potential 0) dense_index (-1) zeroed
           [0] two_coins_ids (NoDup_singleton 0) pair_worker w' Hrun 0 0
           eq_refl).
Defined.

Lemma coin_sweep :
  for_each (sample_single_variable (graph_of coin) (flat_potential 0)
              dense_index (-1) zeroed) [0] (with_infrs small_infrs fresh_worker)
  = Ok tt
      (with_infrs
         {| assignments_evid := [0%Z]; assignments_free := [0%Z];
            weight_values := []; agg_nsamples := [1];
            agg_means := [(0 + 0)%R]; multinomial_tallies := [0; 0] |}
         (with_seed (next_seed (p_rand_seed fresh_worker)) fresh_worker)).
Proof.
  cbn [for_each]. unfold bind. rewrite coin_step. reflexivity.
Qed.

Lemma sweep_consumes_one_draw_each_witness :
  p_rand_seed
    (with_infrs
       {| assignments_evid := [0%Z]; assignments_free := [0%Z];
          weight_values := []; agg_nsamples := [1];
          agg_means := [(0 + 0)%R]; multinomial_tallies := [0; 0] |}
       (with_seed (next_seed (p_rand_seed fresh_worker)) fresh_worker))
  = Nat.iter
      (processed_count (graph_of coin) [0] (with_infrs small_infrs fresh_worker))
      next_seed
      (p_rand_seed (with_infrs small_infrs fresh_worker)).
Proof.
  exact (sweep_consumes_one_draw_each (graph_of coin) (flat_potential 0)
           dense_index (-1) zeroed [0] _ _ coin_sweep).
Defined.

Lemma mean_within_preserved_witness :
  mean_within (infrs fresh_worker)
  /\ forall vids,
       mean_within
         (infrs (final_state
                   (for_each (sample_single_variable (graph_of coin)
                                (flat_potential 0) dense_index (-1) zeroed)
                      vids fresh_worker))).
Proof.
  split; [exact small_infrs_mean_within|].
  exact (proj1 (mean_within_preserved (graph_of coin) (flat_potential 0)
                  no_update dense_index (-1) zeroed fresh_worker
                  small_infrs_mean_within)).
Defined.

Lemma sgd_pins_evidence_witness :
  variables (graph_of pinned) !! 0 = Some pinned
  /\ is_observation pinned = false
  /\ is_evid pinned = true
  /\ id pinned < length (assignments_evid (infrs fresh_worker))
  /\ update_weight_frame no_update
  /\ assignments_evid
       (infrs (final_state
                 (sample_sgd_single_variable (graph_of pinned)
                    (flat_potential 0) no_update (-1) zeroed 0 1 fresh_worker)))
     !! id pinned
     = Some (assignment_evid pinned).
Proof.
  assert (Hlen : id pinned < length (assignments_evid (infrs fresh_worker)))
    by (simpl; lia).
  split; [reflexivity|]. split; [reflexivity|]. split; [reflexivity|].
  split; [exact Hlen|]. split; [exact no_update_frame|].
  exact (sgd_pins_evidence (graph_of pinned) (flat_potential 0) no_update (-1)
           zeroed 0 pinned 1 fresh_worker eq_refl eq_refl eq_refl Hlen
           no_update_frame).
Defined.

Lemma draw_sample_above_mass_witness :
  domain_type die = DTYPE_MULTINOMIAL
  /\ domain_map die = None
  /\ vec_wf (varlen_potential_buffer_ fresh_worker)
  /\ (1 - exp (-100000 - logadd (logadd (-100000) (-100000)) (-100000))
      < fst (erand48 (p_rand_seed fresh_worker)))%R
  /\ drawn (draw_sample (flat_potential (-100000)) (-1) zeroed die [] []
              fresh_worker)
     = inr AssertionFailed.
Proof.
  assert (Hr : (1 - exp (-100000 - logadd (logadd (-100000) (-100000)) (-100000))
                < fst (erand48 (p_rand_seed fresh_worker)))%R).
  { rewrite first_draw_of_fresh_worker.
    pose proof third_of_the_mass as Hthird. cbv zeta in Hthird.
    rewrite Hthird. lra. }
  split; [reflexivity|]. split; [reflexivity|].
  split; [exact fresh_worker_wf|]. split; [exact Hr|].
  exact (draw_sample_above_mass (flat_potential (-100000)) (-1) zeroed die
           [] [] fresh_worker eq_refl eq_refl fresh_worker_wf Hr).
Defined.
